(** * Order lottery application (app.py): shallow embedding and properties

    The application is one Streamlit script.  Every user interaction runs
    the script again from the top with the session state of the previous
    run; the body of an [if st.button(...):] is the handler of that button.
    The embedding keeps this shape: the session state and the files are an
    explicit [world], every button handler is a function on worlds, and the
    drawing page is a transition function over the events of that page.

    Python strings are modelled as [string], holding the UTF-8 encoding of
    the text: equality, emptiness, splitting on an ASCII separator and
    stripping white space are exact on that encoding. *)

From Stdlib Require Import Ascii String.
From stdpp Require Import base list strings gmap.

Open Scope string_scope.
Open Scope list_scope.
Open Scope nat_scope.

(** ** Python primitives *)

Definition chr (n : nat) : string := String (ascii_of_nat n) EmptyString.

Definition utf8 (bytes : list nat) : list ascii := ascii_of_nat <$> bytes.

(** The characters for which [str.isspace] holds, as UTF-8 byte sequences:
    U+0009..U+000D, U+001C..U+0020, U+0085, U+00A0, U+1680, U+2000..U+200A,
    U+2028, U+2029, U+202F, U+205F, U+3000. *)
Definition whitespace : list (list ascii) :=
  [ utf8 [9]; utf8 [10]; utf8 [11]; utf8 [12]; utf8 [13];
    utf8 [28]; utf8 [29]; utf8 [30]; utf8 [31]; utf8 [32];
    utf8 [194; 133]; utf8 [194; 160]; utf8 [225; 154; 128];
    utf8 [226; 128; 128]; utf8 [226; 128; 129]; utf8 [226; 128; 130];
    utf8 [226; 128; 131]; utf8 [226; 128; 132]; utf8 [226; 128; 133];
    utf8 [226; 128; 134]; utf8 [226; 128; 135]; utf8 [226; 128; 136];
    utf8 [226; 128; 137]; utf8 [226; 128; 138];
    utf8 [226; 128; 168]; utf8 [226; 128; 169]; utf8 [226; 128; 175];
    utf8 [226; 129; 159]; utf8 [227; 128; 128] ].

(** [drop_prefix p l] is the rest of [l] after its prefix [p], if it has it. *)
Fixpoint drop_prefix (p l : list ascii) : option (list ascii) :=
  match p, l with
  | [], _ => Some l
  | _ :: _, [] => None
  | a :: p', b :: l' => if decide (a = b) then drop_prefix p' l' else None
  end.

(** The rest of [l] after one leading white-space character of the table
    [ws], if [l] starts with one. *)
Fixpoint drop_space (ws : list (list ascii)) (l : list ascii)
  : option (list ascii) :=
  match ws with
  | [] => None
  | w :: ws' =>
      match drop_prefix w l with
      | Some r => Some r
      | None => drop_space ws' l
      end
  end.

(** Leading white space removed.  Every round drops at least one byte, so
    fuel [length l] is never exhausted. *)
Fixpoint lstrip_fuel (ws : list (list ascii)) (fuel : nat) (l : list ascii)
  : list ascii :=
  match fuel with
  | O => l
  | S fuel' =>
      match drop_space ws l with
      | Some r => lstrip_fuel ws fuel' r
      | None => l
      end
  end.

Definition lstrip (l : list ascii) : list ascii :=
  lstrip_fuel whitespace (length l) l.

(** Trailing white space: the same scan over the reversed bytes with the
    reversed table (a UTF-8 sequence is recognised from its end as well). *)
Definition rstrip (l : list ascii) : list ascii :=
  reverse (lstrip_fuel (reverse <$> whitespace) (length l) (reverse l)).

(** [s.strip()] *)
Definition strip (s : string) : string :=
  string_of_list_ascii (rstrip (lstrip (list_ascii_of_string s))).

(** [s.split(sep)] for a one-character separator: never empty, a separator
    at either end gives an empty field. *)
Fixpoint split_bytes (sep : ascii) (l : list ascii) : list (list ascii) :=
  match l with
  | [] => [[]]
  | c :: l' =>
      if decide (c = sep) then [] :: split_bytes sep l'
      else match split_bytes sep l' with
           | [] => [[c]]
           | field :: fields => (c :: field) :: fields
           end
  end.

Definition str_split (sep : ascii) (s : string) : list string :=
  string_of_list_ascii <$> split_bytes sep (list_ascii_of_string s).

(** [s.split(sep, 1)]: cut at the first separator only. *)
Fixpoint split1_bytes (sep : ascii) (l : list ascii) : list (list ascii) :=
  match l with
  | [] => [[]]
  | c :: l' =>
      if decide (c = sep) then [[]; l']
      else match split1_bytes sep l' with
           | [] => [[c]]
           | field :: fields => (c :: field) :: fields
           end
  end.

Definition str_split1 (sep : ascii) (s : string) : list string :=
  string_of_list_ascii <$> split1_bytes sep (list_ascii_of_string s).

Definition newline : ascii := ascii_of_nat 10.
Definition comma : ascii := ascii_of_nat 44.

(** [not s] on a string *)
Definition is_empty (s : string) : bool := bool_decide (s = "").

(** [os.path.join(a, b)] for a relative, non-empty [b] *)
Definition ends_with_slash (a : string) : bool :=
  match reverse (list_ascii_of_string a) with
  | c :: _ => bool_decide (c = ascii_of_nat 47)
  | [] => false
  end.

Definition path_join (a b : string) : string :=
  if is_empty a then b
  else if ends_with_slash a then a +:+ b
  else a +:+ "/" +:+ b.

(** ** Dictionaries

    A Python [dict] keeps its keys in insertion order, and the application
    iterates over the order pool in that order; a dictionary is therefore an
    association list, read at the first binding of a key. *)

Section Dict.
Context {V : Type}.

Definition dict : Type := list (string * V).

(** [d.get(k)] *)
Fixpoint dict_get (k : string) (d : dict) : option V :=
  match d with
  | [] => None
  | (k', v) :: d' => if decide (k' = k) then Some v else dict_get k d'
  end.

(** [k in d] *)
Definition dict_contains (k : string) (d : dict) : bool :=
  match dict_get k d with Some _ => true | None => false end.

(** [d[k] = v]: in place for a present key, at the end for a new one *)
Fixpoint dict_set (k : string) (v : V) (d : dict) : dict :=
  match d with
  | [] => [(k, v)]
  | (k', v') :: d' =>
      if decide (k' = k) then (k', v) :: d' else (k', v') :: dict_set k v d'
  end.

Definition dict_keys (d : dict) : list string := fst <$> d.
Definition dict_values (d : dict) : list V := snd <$> d.
End Dict.

Arguments dict : clear implicits.

(** ** Data model *)

(** The order pool: platform name to the list of its order numbers. *)
Abbreviation pool := (dict (list string)).

(** A winner record of the ledger, the dict with the keys
    '订单号', '平台' and '时间'. *)
Record winner := Winner {
  order_no : string;
  platform_of : string;
  time_of : string
}.

(** An entry of the round accumulator, the tuple
    [(order, platform, select_time)]. *)
Definition entry : Type := string * string * string.

Definition entry_order (e : entry) : string := e.1.1.

(** What [json.load] can return from the two files of the application: the
    array of winner records (the empty array included) or the object of the
    order pool. *)
Inductive value :=
  | VList (records : list winner)
  | VDict (orders : pool).

(** The text of a file: a JSON document, or something [json.load] rejects. *)
Inductive content :=
  | Json (v : value)
  | Garbage.

(** The files, the paths that [open(path, 'w')] refuses (no permission, no
    such directory), and the working directory of the process. *)
Record filesystem := Filesystem {
  files : gmap string content;
  readonly : gset string;
  cwd : string
}.

Inductive page := order_query | draw | results | order_pool_management.

(** [st.session_state], with the widget values the drawing page keeps in it
    (the platform check boxes, ticked by default, and the number input). *)
Record session_state := SessionState {
  order_pool : pool;
  authenticated : bool;
  winners : list winner;
  current_draw_winners : list winner;
  current_page : page;
  is_rolling : bool;
  current_rolling_order : string * string;
  final_winners : list entry;
  reset_history_confirmed : bool;
  pool_management_authenticated : bool;
  confirm_save : bool;
  reset_confirmed : bool;
  unchecked : gset string;
  winner_count : nat
}.

Record world := World {
  ss : session_state;
  disk : filesystem
}.

(** Assignments to single keys of the session state. *)
Definition set_order_pool (v : pool) (s : session_state) : session_state :=
  SessionState v (authenticated s) (winners s) (current_draw_winners s)
    (current_page s) (is_rolling s) (current_rolling_order s)
    (final_winners s) (reset_history_confirmed s)
    (pool_management_authenticated s) (confirm_save s) (reset_confirmed s)
    (unchecked s) (winner_count s).

Definition set_winners (v : list winner) (s : session_state) : session_state :=
  SessionState (order_pool s) (authenticated s) v (current_draw_winners s)
    (current_page s) (is_rolling s) (current_rolling_order s)
    (final_winners s) (reset_history_confirmed s)
    (pool_management_authenticated s) (confirm_save s) (reset_confirmed s)
    (unchecked s) (winner_count s).

Definition set_current_draw_winners (v : list winner) (s : session_state)
  : session_state :=
  SessionState (order_pool s) (authenticated s) (winners s) v
    (current_page s) (is_rolling s) (current_rolling_order s)
    (final_winners s) (reset_history_confirmed s)
    (pool_management_authenticated s) (confirm_save s) (reset_confirmed s)
    (unchecked s) (winner_count s).

Definition set_is_rolling (v : bool) (s : session_state) : session_state :=
  SessionState (order_pool s) (authenticated s) (winners s)
    (current_draw_winners s) (current_page s) v (current_rolling_order s)
    (final_winners s) (reset_history_confirmed s)
    (pool_management_authenticated s) (confirm_save s) (reset_confirmed s)
    (unchecked s) (winner_count s).

Definition set_current_rolling_order (v : string * string) (s : session_state)
  : session_state :=
  SessionState (order_pool s) (authenticated s) (winners s)
    (current_draw_winners s) (current_page s) (is_rolling s) v
    (final_winners s) (reset_history_confirmed s)
    (pool_management_authenticated s) (confirm_save s) (reset_confirmed s)
    (unchecked s) (winner_count s).

Definition set_final_winners (v : list entry) (s : session_state)
  : session_state :=
  SessionState (order_pool s) (authenticated s) (winners s)
    (current_draw_winners s) (current_page s) (is_rolling s)
    (current_rolling_order s) v (reset_history_confirmed s)
    (pool_management_authenticated s) (confirm_save s) (reset_confirmed s)
    (unchecked s) (winner_count s).

Definition set_reset_history_confirmed (v : bool) (s : session_state)
  : session_state :=
  SessionState (order_pool s) (authenticated s) (winners s)
    (current_draw_winners s) (current_page s) (is_rolling s)
    (current_rolling_order s) (final_winners s) v
    (pool_management_authenticated s) (confirm_save s) (reset_confirmed s)
    (unchecked s) (winner_count s).

Definition set_confirm_save (v : bool) (s : session_state) : session_state :=
  SessionState (order_pool s) (authenticated s) (winners s)
    (current_draw_winners s) (current_page s) (is_rolling s)
    (current_rolling_order s) (final_winners s) (reset_history_confirmed s)
    (pool_management_authenticated s) v (reset_confirmed s)
    (unchecked s) (winner_count s).

Definition set_reset_confirmed (v : bool) (s : session_state) : session_state :=
  SessionState (order_pool s) (authenticated s) (winners s)
    (current_draw_winners s) (current_page s) (is_rolling s)
    (current_rolling_order s) (final_winners s) (reset_history_confirmed s)
    (pool_management_authenticated s) (confirm_save s) v
    (unchecked s) (winner_count s).

Definition set_unchecked (v : gset string) (s : session_state) : session_state :=
  SessionState (order_pool s) (authenticated s) (winners s)
    (current_draw_winners s) (current_page s) (is_rolling s)
    (current_rolling_order s) (final_winners s) (reset_history_confirmed s)
    (pool_management_authenticated s) (confirm_save s) (reset_confirmed s)
    v (winner_count s).

Definition set_winner_count (v : nat) (s : session_state) : session_state :=
  SessionState (order_pool s) (authenticated s) (winners s)
    (current_draw_winners s) (current_page s) (is_rolling s)
    (current_rolling_order s) (final_winners s) (reset_history_confirmed s)
    (pool_management_authenticated s) (confirm_save s) (reset_confirmed s)
    (unchecked s) v.

(** What a handler shows on the page, where a property is about what is
    reported; progress lines written with [st.write] are left out. *)
Inductive message :=
  | ImportSucceeded (added duplicate errored : nat)
  | PoolTotals (platforms total : nat)
  | ErrorRows (errored : nat)
  | DuplicateRows (duplicate : nat)
  | NothingImported
  | EmptyInput
  | NoValidData
  | ResultsSaved
  | SaveWinnersError
  | ResultsNotSaved
  | AlreadyRecorded
  | ExportOffered (rows : list entry)
  | UnboundWinnerTable.

(** ** Persistence *)

Definition PERSIST_DIR : string :=
  "/mount/src/e-commerce-platform-order-lottery-system".
Definition WINNERS_FILE : string := path_join PERSIST_DIR "winners.json".
Definition ORDER_POOL_FILE : string :=
  path_join PERSIST_DIR "initial_order_pool.json".

(** [os.path.exists] *)
Definition path_exists (path : string) (fs : filesystem) : bool :=
  bool_decide (is_Some (files fs !! path)).

(** [with open(path, 'w') as f: json.dump(v, f)]; [None] when [open]
    raises, and then the file is as it was. *)
Definition write_json (path : string) (v : value) (fs : filesystem)
  : option filesystem :=
  if decide (path ∈ readonly fs) then None
  else Some (Filesystem (<[path := Json v]> (files fs)) (readonly fs) (cwd fs)).

(** [with open(path, 'r') as f: json.load(f)]; [None] when either raises. *)
Definition read_json (path : string) (fs : filesystem) : option value :=
  match files fs !! path with
  | Some (Json v) => Some v
  | Some Garbage => None
  | None => None
  end.

Definition load_winners (fs : filesystem) : value :=
  if path_exists WINNERS_FILE fs then
    match read_json WINNERS_FILE fs with
    | Some v => v
    | None => VList []
    end
  else VList [].

Definition save_winners (winners_data : list winner) (fs : filesystem)
  : bool * filesystem :=
  match write_json WINNERS_FILE (VList winners_data) fs with
  | Some fs' => (true, fs')
  | None => (false, fs)
  end.

Definition default_order_pool : pool :=
  [ ("抖音", []); ("天猫", []); ("京东", []);
    ("小红书", []); ("拼多多", []); ("微信小店", []) ].

Definition load_initial_order_pool (fs : filesystem) : value :=
  if path_exists ORDER_POOL_FILE fs then
    match read_json ORDER_POOL_FILE fs with
    | Some v => v
    | None => VDict default_order_pool
    end
  else VDict default_order_pool.

Definition save_initial_order_pool (order_pool_data : pool) (fs : filesystem)
  : bool * filesystem :=
  match write_json ORDER_POOL_FILE (VDict order_pool_data) fs with
  | Some fs' => (true, fs')
  | None => (false, fs)
  end.

(** ** Two-step destructive operations

    Each operation has a pending-confirmation flag in the session state.
    While the flag is off the page shows the first button only; while it is
    on it shows the confirm and the cancel button only.  A button that is
    not on the page cannot be pressed, so its handler leaves the world as it
    is.  These buttons come after the rolling loop in the script, so the run
    that follows [st.rerun()] reaches them again without changing anything. *)

(** *** Reset of the lottery history (drawing page) *)


Definition confirm_reset_history_button (w : world) : world :=
  if reset_history_confirmed (ss w) then
    let s1 := set_current_draw_winners [] (set_winners [] (ss w)) in
    (* try: empty array written to [file_path], then read back *)
    let file_path := ORDER_POOL_FILE in
    let '(success, fs1) :=
      match write_json file_path (VList []) (disk w) with
      | Some fs1 =>
          match read_json file_path fs1 with
          | Some (VList []) => (true, fs1)
          | _ => (false, fs1)
          end
      | None => (false, disk w)
      end in
    let '(_, fs2) := save_winners [] fs1 in
    (* [if success: load_winners()] only reads *)
    World (set_reset_history_confirmed false s1) fs2
  else w.


(** *** Save as initial data (pool management page) *)


Definition confirm_save_button (w : world) : world :=
  if confirm_save (ss w) then
    let '(_, fs1) := save_initial_order_pool (order_pool (ss w)) (disk w) in
    (* on success [load_initial_order_pool()] only reads *)
    World (set_confirm_save false (ss w)) fs1
  else w.


(** *** Reset of the order pool (pool management page) *)

Definition empty_order_pool : pool :=
  [ ("抖音", []); ("天猫", []); ("京东", []);
    ("小红书", []); ("拼多多", []); ("微信小店", []) ].

Definition all_empty (p : pool) : bool :=
  forallb (λ orders, bool_decide (length orders = 0)) (dict_values p).


Definition confirm_reset_pool_button (w : world) : world :=
  if reset_confirmed (ss w) then
    (* try: empty pool written to [file_path], then read back *)
    let current_dir := cwd (disk w) in
    let file_path := path_join current_dir "initial_order_pool.json" in
    let '(success, fs1) :=
      match write_json file_path (VDict empty_order_pool) (disk w) with
      | Some fs1 =>
          match read_json file_path fs1 with
          | Some (VDict content) => (all_empty content, fs1)
          | _ => (false, fs1)
          end
      | None => (false, disk w)
      end in
    let s1 := set_order_pool empty_order_pool (ss w) in
    (* [if success: load_initial_order_pool()] only reads *)
    World (set_reset_confirmed false s1) fs1
  else w.


(** The three operations, and their three buttons. *)
Inductive destructive := LedgerReset | PoolReset | SaveAsInitial.






(** ** Import of orders (pool management page) *)

Inductive import_mode := Append | Replace.

Record tally := Tally {
  total_new : nat;
  duplicates : nat;
  errors : nat
}.

(** One round of the loop of [process_orders].  The fields are strings and
    the values of the pool are lists, so nothing in the body raises. *)
Definition import_pair (acc : pool * tally) (pair : string * string)
  : pool * tally :=
  let '(new_orders, t) := acc in
  let '(platform, order) := pair in
  if is_empty platform || is_empty order then
    (new_orders, Tally (total_new t) (duplicates t) (errors t + 1))
  else
    let new_orders :=
      if dict_contains platform new_orders then new_orders
      else dict_set platform [] new_orders in
    let orders := default [] (dict_get platform new_orders) in
    if bool_decide (order ∈ orders) then
      (new_orders, Tally (total_new t) (duplicates t + 1) (errors t))
    else
      (dict_set platform (orders ++ [order]) new_orders,
       Tally (total_new t + 1) (duplicates t) (errors t)).

(** The pool the loop starts from, and the loop. *)
Definition import_start (mode : import_mode) (current : pool) : pool :=
  match mode with
  | Append => current
  | Replace => []
  end.

Definition import_loop (mode : import_mode) (current : pool)
    (platform_order_pairs : list (string * string)) : pool * tally :=
  foldl import_pair (import_start mode current, Tally 0 0 0)
    platform_order_pairs.

#[global] Instance import_mode_eq_dec : EqDecision import_mode.
Proof. solve_decision. Defined.

Definition total_orders (p : pool) : nat :=
  sum_list (length <$> dict_values p).

Definition is_replace (mode : import_mode) : bool :=
  match mode with Replace => true | Append => false end.

Definition process_orders (mode : import_mode)
    (platform_order_pairs : list (string * string)) (s : session_state)
  : session_state * list message :=
  let '(new_orders, t) :=
    import_loop mode (order_pool s) platform_order_pairs in
  if (0 <? total_new t)
     || (is_replace mode && (0 <? length platform_order_pairs)) then
    let s' := set_order_pool new_orders s in
    (s', [ ImportSucceeded (total_new t) (duplicates t) (errors t);
           PoolTotals (length (order_pool s')) (total_orders (order_pool s')) ])
  else
    (s, (if 0 <? errors t then [ErrorRows (errors t)] else [])
        ++ (if 0 <? duplicates t then [DuplicateRows (duplicates t)] else [])
        ++ [NothingImported]).

(** The lines of the text area turned into pairs: a stripped line that is
    empty is skipped, and so is one that [split(',', 1)] does not cut in
    two. *)
Definition parse_line (pairs : list (string * string)) (line : string)
  : list (string * string) :=
  let line := strip line in
  if is_empty line then pairs
  else
    match str_split1 comma line with
    | [platform; order] => pairs ++ [(strip platform, strip order)]
    | _ => pairs
    end.

Definition parse_lines (import_text : string) : list (string * string) :=
  foldl parse_line [] (str_split newline (strip import_text)).

Definition import_text_button (mode : import_mode) (import_text : string)
    (s : session_state) : session_state * list message :=
  if is_empty (strip import_text) then (s, [EmptyInput])
  else
    let platform_order_pairs := parse_lines import_text in
    match platform_order_pairs with
    | _ :: _ => process_orders mode platform_order_pairs s
    | [] => (s, [NoValidData])
    end.

(** ** The drawing page *)

(** The platforms whose check box is ticked, in the order of the pool. *)
Definition selected_platforms (s : session_state) : list string :=
  filter (λ platform, platform ∉ unchecked s) (dict_keys (order_pool s)).

(** [st.session_state.order_pool[platform]] for a key of the pool *)
Definition orders_of (s : session_state) (platform : string) : list string :=
  default [] (dict_get platform (order_pool s)).

Definition total_orders_in_selected_platforms (s : session_state) : nat :=
  sum_list (length <$> (orders_of s <$> selected_platforms s)).

(** [any(winner[0] == order for winner in final_winners)] *)
Definition is_already_winner (s : session_state) (order : string) : bool :=
  existsb (λ winner, bool_decide (entry_order winner = order))
    (final_winners s).

Definition eligible_orders (s : session_state) : list (string * string) :=
  platform ← selected_platforms s;
  order ← filter (λ order, is_already_winner s order = false)
             (orders_of s platform);
  [(order, platform)].

Definition start_disabled (s : session_state) : bool :=
  is_rolling s
  || bool_decide (length (eligible_orders s) = 0)
  || (winner_count s <=? length (final_winners s))
  || (total_orders_in_selected_platforms s <=? winner_count s).

(** Body of the start button: the chain of checks, then the flag. *)
Definition start_handler (s : session_state) : session_state :=
  if bool_decide (selected_platforms s = []) then s
  else if total_orders_in_selected_platforms s <=? winner_count s then s
  else if bool_decide (length (eligible_orders s) = 0) then s
  else set_is_rolling true s.

Definition select_disabled (s : session_state) : bool := negb (is_rolling s).

(** Body of the select button; [select_time] is the clock reading. *)
Definition select_handler (select_time : string) (s : session_state)
  : session_state :=
  let s := set_is_rolling false s in
  if negb (is_empty (current_rolling_order s).1) then
    set_final_winners
      (final_winners s
         ++ [((current_rolling_order s).1, (current_rolling_order s).2,
              select_time)]) s
  else s.

Definition reset_disabled (s : session_state) : bool :=
  bool_decide (length (final_winners s) = 0).

Definition reset_handler (s : session_state) : session_state :=
  set_is_rolling false (set_final_winners [] s).

(** [random.choice(l)] for the draw [r] of the generator *)
Definition choice {A} (r : nat) (l : list A) : option A :=
  l !! (r mod length l).

(** One frame of the rolling loop. *)
Definition rolling_frame (s : session_state) (r : nat) : session_state :=
  match choice r (eligible_orders s) with
  | Some random_order => set_current_rolling_order random_order s
  | None => s
  end.

(** The end of a run of the script.  With the flag on and an eligible
    order left, the loop [while is_rolling] shows one frame after the other
    and the run never gets past it: it ends when the next event interrupts
    it.  [frames] are the draws of the frames shown until then, the first
    and the later ones. *)
Definition loop_entered (s : session_state) : bool :=
  is_rolling s && negb (bool_decide (eligible_orders s = [])).

Definition rolling_phase (frames : nat * list nat) (s : session_state)
  : session_state :=
  if loop_entered s then foldl rolling_frame s (frames.1 :: frames.2)
  else s.

(** The ledger commit of a confirmed round: an entry is appended only if
    no record has its order number; the flag tells whether any was. *)
Definition commit_entry (acc : list winner * bool) (e : entry)
  : list winner * bool :=
  let '(ledger, new_winners_added) := acc in
  let '(order_num, platform, select_time) := e in
  if existsb (λ winner, bool_decide (order_no winner = order_num)) ledger
  then (ledger, new_winners_added)
  else (ledger ++ [Winner order_num platform select_time], true).

Definition commit_round (ledger : list winner) (round : list entry)
  : list winner * bool :=
  foldl commit_entry (ledger, false) round.

(** The confirm button is on the page when the run gets past the loop and
    the round is complete. *)
Definition confirm_shown (s : session_state) : bool :=
  negb (loop_entered s)
  && bool_decide (length (final_winners s) = winner_count s).

(** Body of the confirm button; [save_results] is its check box.  The
    table of the round is bound only when the accumulator is not empty, so
    for an empty accumulator the export raises before the round state is
    cleared. *)
Definition confirm_handler (save_results : bool) (w : world)
  : world * list message :=
  let s := ss w in
  let '(ledger, fs, msgs) :=
    if save_results then
      let '(ledger, new_winners_added) :=
        commit_round (winners s) (final_winners s) in
      if new_winners_added then
        let '(ok, fs) := save_winners ledger (disk w) in
        (ledger, fs,
         if ok then [ResultsSaved] else [SaveWinnersError; ResultsNotSaved])
      else (ledger, disk w, [AlreadyRecorded])
    else (winners s, disk w, []) in
  let s := set_winners ledger s in
  match final_winners s with
  | [] => (World s fs, msgs ++ [UnboundWinnerTable])
  | _ :: _ =>
      (World (set_current_rolling_order ("", "") (set_final_winners [] s)) fs,
       msgs ++ [ExportOffered (final_winners s)])
  end.

(** The events of the drawing page.  The number input only takes values
    from 1 to 100. *)
Inductive event :=
  | StartDraw
  | SelectOrder (select_time : string)
  | ResetRound
  | SetWinnerCount (n : nat)
  | TogglePlatform (platform : string)
  | ConfirmCompletion (save_results : bool).

Definition toggle (platform : string) (u : gset string) : gset string :=
  if decide (platform ∈ u) then u ∖ {[platform]} else u ∪ {[platform]}.

(** One event and the run of the script it causes.  A disabled button
    takes no press.  After a handler that calls [st.rerun()] the script
    runs once more without an event, which leads to the same end of run. *)
Definition handle (e : event) (w : world) : world :=
  let s := ss w in
  match e with
  | StartDraw =>
      if start_disabled s then w else World (start_handler s) (disk w)
  | SelectOrder select_time =>
      if select_disabled s then w
      else World (select_handler select_time s) (disk w)
  | ResetRound =>
      if reset_disabled s then w else World (reset_handler s) (disk w)
  | SetWinnerCount n =>
      if (1 <=? n) && (n <=? 100) then World (set_winner_count n s) (disk w)
      else w
  | TogglePlatform platform =>
      World (set_unchecked (toggle platform (unchecked s)) s) (disk w)
  | ConfirmCompletion save_results =>
      if confirm_shown s then (confirm_handler save_results w).1 else w
  end.

(** The confirm button comes after the loop in the script and its handler
    does not call [st.rerun()]: the run ends with the handler.  Every other
    event ends in the loop when the flag is on. *)
Definition step (w : world) (a : event * (nat * list nat)) : world :=
  match a.1 with
  | ConfirmCompletion _ => handle a.1 w
  | _ =>
      let w' := handle a.1 w in
      World (rolling_phase a.2 (ss w')) (disk w')
  end.

Definition run (w : world) (trace : list (event * (nat * list nat))) : world :=
  foldl step w trace.

(** The drawing page as it is opened: nothing drawn, not rolling, every
    platform ticked, one winner asked for. *)
Definition fresh_session (p : pool) (ledger : list winner) : session_state :=
  SessionState p true ledger [] draw false ("", "") [] false false false false
    ∅ 1.

Definition accumulator_orders (s : session_state) : list string :=
  entry_order <$> final_winners s.



(** Modelled on the words of the specification of [import_records], to be
    compared with [import_loop]: a pair with an empty field is an error; an
    order already in the list of its platform is a duplicate; any other
    order is added to that list. *)
Definition spec_add (p : pool) (platform order : string) : pool :=
  dict_set platform (default [] (dict_get platform p) ++ [order]) p.

Fixpoint spec_import (p : pool) (pairs : list (string * string))
  : pool * tally :=
  match pairs with
  | [] => (p, Tally 0 0 0)
  | (platform, order) :: rest =>
      if decide (platform = "" ∨ order = "") then
        let '(p', t) := spec_import p rest in
        (p', Tally (total_new t) (duplicates t) (S (errors t)))
      else if decide (order ∈ default [] (dict_get platform p)) then
        let '(p', t) := spec_import p rest in
        (p', Tally (total_new t) (S (duplicates t)) (errors t))
      else
        let '(p', t) := spec_import (spec_add p platform order) rest in
        (p', Tally (S (total_new t)) (duplicates t) (errors t))
  end.

Definition tally_add (a b : tally) : tally :=
  Tally (total_new a + total_new b) (duplicates a + duplicates b)
    (errors a + errors b).

(** The number of records of the ledger with a given order number. *)
Definition records_of (order : string) (ledger : list winner) : nat :=
  length (filter (λ w, order_no w = order) ledger).

#[global] Instance destructive_eq_dec : EqDecision destructive.
Proof. solve_decision. Defined.


(** ** Worlds used as examples *)

Definition stuck_disk : filesystem :=
  Filesystem ∅ {[WINNERS_FILE]} PERSIST_DIR.

Definition round_of_two : session_state :=
  set_winner_count 2
    (set_final_winners [("3", "A", "t1"); ("2", "A", "t2")]
       (fresh_session [("A", ["1"; "2"; "3"])] [])).

(** A saved snapshot and ledger of one order, every file writable, and
    the two resets pending; the process runs in [PERSIST_DIR] for the first
    world and in another directory for the second. *)
Definition saved_pool : pool := [("抖音", ["D2023001"])].

Definition saved_ledger : list winner :=
  [Winner "D2023001" "抖音" "2025-01-01 12:00:00"].

Definition saved_files : gmap string content :=
  {[ ORDER_POOL_FILE := Json (VDict saved_pool);
     WINNERS_FILE := Json (VList saved_ledger) ]}.

Definition history_reset_pending : world :=
  World (set_reset_history_confirmed true
           (fresh_session saved_pool saved_ledger))
    (Filesystem saved_files ∅ PERSIST_DIR).

Definition pool_reset_pending : world :=
  World (set_reset_confirmed true (fresh_session saved_pool saved_ledger))
    (Filesystem saved_files ∅ "/home/app").

(** Three lines of text, the second without a comma. *)
Definition text_with_malformed_line : string :=
  "A,1" +:+ chr 10 +:+ "no comma here" +:+ chr 10 +:+ "B,2".


(** Three orders on one platform, the drawing page just opened. *)
Definition three_orders : world :=
  World (fresh_session [("A", ["1"; "2"; "3"])] [])
    (Filesystem ∅ ∅ PERSIST_DIR).







(** ** Order query page *)

Inductive query_result :=
  | QueryEmptyInput
  | QueryFound (platform_name : string)
  | QueryNotFound.

(** The scan over [order_pool.items()]: the first platform, in the order of
    the pool, whose list holds the order. *)
Fixpoint find_platform (order : string) (p : pool) : option string :=
  match p with
  | [] => None
  | (platform, orders) :: p' =>
      if bool_decide (order ∈ orders) then Some platform
      else find_platform order p'
  end.

Definition order_query_button (order_input : string) (s : session_state)
  : query_result :=
  if is_empty (strip order_input) then QueryEmptyInput
  else
    match find_platform (strip order_input) (order_pool s) with
    | Some platform_name => QueryFound platform_name
    | None => QueryNotFound
    end.

(** ** Result query page *)

Inductive winner_query_result :=
  | WinnerEmptyInput
  | WinnerFound (winner_info : winner)
  | WinnerNotFound.

(** The scan over the ledger: the first record with the order number. *)
Fixpoint find_winner (order : string) (ledger : list winner) : option winner :=
  match ledger with
  | [] => None
  | w :: ledger' =>
      if bool_decide (order_no w = order) then Some w
      else find_winner order ledger'
  end.

Definition winner_query_button (winner_query_input : string)
    (s : session_state) : winner_query_result :=
  if is_empty (strip winner_query_input) then WinnerEmptyInput
  else
    match find_winner (strip winner_query_input) (winners s) with
    | Some winner_info => WinnerFound winner_info
    | None => WinnerNotFound
    end.


(** A disk without files on which nothing is read-only, and a session with
    the save of the pool pending. *)
Definition empty_disk : filesystem := Filesystem ∅ ∅ PERSIST_DIR.


Definition save_pending : world :=
  World (set_confirm_save true (fresh_session saved_pool saved_ledger))
    empty_disk.

(** [order in order_pool[platform]], false for a platform that is not a
    key of the pool. *)
Definition listed (p : pool) (platform order : string) : Prop :=
  order ∈ default [] (dict_get platform p).

(** The invariant of the order pool: every platform is one key, and no
    order number is twice in the list of a platform. *)
Definition pool_wf (p : pool) : Prop :=
  NoDup (dict_keys p) ∧ Forall (λ kv, NoDup kv.2) p.

(** The candidate and the entries of the round are orders of the pool. *)
Definition candidate_from_pool (s : session_state) : Prop :=
  (current_rolling_order s).1 = ""
  ∨ listed (order_pool s) (current_rolling_order s).2
      (current_rolling_order s).1.

Definition round_from_pool (s : session_state) : Prop :=
  Forall (λ e : entry, e.1.1 ≠ "" ∧ listed (order_pool s) e.1.2 e.1.1)
    (final_winners s).

(** What no event of the drawing page changes. *)
Definition beside_round (s : session_state) :=
  (order_pool s, authenticated s, current_draw_winners s, current_page s,
   reset_history_confirmed s, pool_management_authenticated s,
   confirm_save s, reset_confirmed s).


(** The first entry of a round with a given order number. *)
Fixpoint find_entry (order : string) (round : list entry) : option entry :=
  match round with
  | [] => None
  | e :: round' =>
      if bool_decide (entry_order e = order) then Some e
      else find_entry order round'
  end.

(** The record the commit makes of an entry. *)
Definition record_of (e : entry) : winner := Winner e.1.1 e.1.2 e.2.

(** A complete round of two, shown for confirmation. *)
Definition round_of_two_world : world := World round_of_two empty_disk.

(** * Properties *)

(** ** Dictionaries *)

Section DictFacts.
Context {V : Type}.
Implicit Types (d : dict V) (k : string) (v : V).

Lemma dict_get_set_eq d k v : dict_get k (dict_set k v d) = Some v.
Proof.
  induction d as [|[k' v'] d IH]; simpl.
  - by rewrite decide_True.
  - destruct (decide (k' = k)) as [->|Hne]; simpl.
    + by rewrite decide_True.
    + by rewrite decide_False.
Qed.

Lemma dict_set_set d k v1 v2 :
  dict_set k v2 (dict_set k v1 d) = dict_set k v2 d.
Proof.
  induction d as [|[k' v'] d IH]; simpl.
  - by rewrite decide_True.
  - destruct (decide (k' = k)) as [->|Hne]; simpl.
    + by rewrite decide_True.
    + rewrite decide_False by done. by rewrite IH.
Qed.

Lemma dict_contains_get d k :
  dict_contains k d = true → is_Some (dict_get k d).
Proof. unfold dict_contains. destruct (dict_get k d); naive_solver. Qed.

Lemma dict_contains_false d k :
  dict_contains k d = false → dict_get k d = None.
Proof. unfold dict_contains. by destruct (dict_get k d). Qed.
End DictFacts.

Lemma total_orders_set (p : pool) k v :
  total_orders (dict_set k v p) + length (default [] (dict_get k p))
  = total_orders p + length v.
Proof.
  unfold total_orders, dict_values.
  induction p as [|[k' v'] p IH]; [simpl; lia|].
  simpl dict_set. simpl dict_get.
  destruct (decide (k' = k)) as [->|Hne]; rewrite !fmap_cons; simpl; lia.
Qed.

Lemma is_empty_true s : is_empty s = true ↔ s = "".
Proof. unfold is_empty. apply bool_decide_eq_true. Qed.

(** ** Import *)

(** One round of the loop, by the three cases of the specification. *)
Lemma import_pair_cases (p : pool) (t : tally) platform order :
  import_pair (p, t) (platform, order)
  = if decide (platform = "" ∨ order = "") then
      (p, Tally (total_new t) (duplicates t) (errors t + 1))
    else if decide (order ∈ default [] (dict_get platform p)) then
      (p, Tally (total_new t) (duplicates t + 1) (errors t))
    else
      (spec_add p platform order,
       Tally (total_new t + 1) (duplicates t) (errors t)).
Proof.
  unfold import_pair, spec_add.
  destruct (decide (platform = "" ∨ order = "")) as [He|He].
  - assert (is_empty platform || is_empty order = true) as ->; [|done].
    apply orb_true_iff. by rewrite !is_empty_true.
  - assert (is_empty platform || is_empty order = false) as ->.
    { apply orb_false_iff.
      split; apply not_true_is_false; rewrite is_empty_true; tauto. }
    destruct (dict_contains platform p) eqn:Hc.
    + destruct (decide (order ∈ default [] (dict_get platform p))).
      * by rewrite bool_decide_eq_true_2.
      * by rewrite bool_decide_eq_false_2.
    + apply dict_contains_false in Hc.
      rewrite Hc, dict_get_set_eq, dict_set_set. reflexivity.
Qed.

Lemma import_fold_spec pairs : ∀ (p : pool) (t : tally),
  foldl import_pair (p, t) pairs
  = ((spec_import p pairs).1, tally_add t (spec_import p pairs).2).
Proof.
  induction pairs as [|[platform order] pairs IH]; intros p t.
  - destruct t; simpl. unfold tally_add; simpl. do 2 f_equal; lia.
  - cbn [foldl]. rewrite import_pair_cases. cbn [spec_import].
    destruct (decide (platform = "" ∨ order = "")).
    + rewrite IH. destruct (spec_import p pairs) as [p' t'].
      unfold tally_add; simpl. do 2 f_equal; lia.
    + destruct (decide (order ∈ default [] (dict_get platform p))).
      * rewrite IH. destruct (spec_import p pairs) as [p' t'].
        unfold tally_add; simpl. do 2 f_equal; lia.
      * rewrite IH.
        destruct (spec_import (spec_add p platform order) pairs) as [p' t'].
        unfold tally_add; simpl. do 2 f_equal; lia.
Qed.

Lemma import_loop_spec mode (current : pool) pairs :
  import_loop mode current pairs = spec_import (import_start mode current) pairs.
Proof.
  unfold import_loop. rewrite import_fold_spec.
  destruct (spec_import (import_start mode current) pairs) as [p' [a d e]].
  reflexivity.
Qed.

(** The specification's import adds exactly [total_new] orders and puts
    every pair in one tally. *)
Lemma spec_import_counts pairs : ∀ p : pool,
  total_orders (spec_import p pairs).1
  = total_orders p + total_new (spec_import p pairs).2
  ∧ total_new (spec_import p pairs).2 + duplicates (spec_import p pairs).2
    + errors (spec_import p pairs).2 = length pairs.
Proof.
  induction pairs as [|[platform order] pairs IH]; intros p.
  - simpl. lia.
  - cbn [spec_import].
    destruct (decide (platform = "" ∨ order = "")).
    + destruct (IH p) as [H1 H2].
      destruct (spec_import p pairs) as [p' t']. simpl in *. lia.
    + destruct (decide (order ∈ default [] (dict_get platform p))).
      * destruct (IH p) as [H1 H2].
        destruct (spec_import p pairs) as [p' t']. simpl in *. lia.
      * destruct (IH (spec_add p platform order)) as [H1 H2].
        pose proof (total_orders_set p platform
          (default [] (dict_get platform p) ++ [order])) as Hs.
        rewrite length_app in Hs. fold (spec_add p platform order) in Hs.
        destruct (spec_import (spec_add p platform order) pairs) as [p' t'].
        simpl in *. lia.
Qed.

(** C5.  Import in Append mode, over any sequence of (platform, order)
    pairs: the total number of orders of the resulting active pool is the
    total of the prior pool plus the added tally; added + duplicate +
    errored is the number of pairs; and the pool and the tallies are those
    of the specification's classification (errored if a field is empty,
    duplicate if the order is already in the list of its platform, added
    otherwise). *)
Theorem append_import_tallies (pairs : list (string * string))
    (s : session_state) :
  total_orders (order_pool (process_orders Append pairs s).1)
  = total_orders (order_pool s)
    + total_new (import_loop Append (order_pool s) pairs).2
  ∧ total_new (import_loop Append (order_pool s) pairs).2
    + duplicates (import_loop Append (order_pool s) pairs).2
    + errors (import_loop Append (order_pool s) pairs).2
    = length pairs
  ∧ import_loop Append (order_pool s) pairs = spec_import (order_pool s) pairs.
Proof.
  unfold process_orders. rewrite import_loop_spec. simpl import_start.
  destruct (spec_import_counts pairs (order_pool s)) as [Htotal Hsum].
  destruct (spec_import (order_pool s) pairs) as [p' t']. simpl in *.
  split_and!; [|done..].
  destruct (0 <? total_new t') eqn:Hnew; simpl.
  - done.
  - apply Nat.ltb_ge in Hnew. lia.
Qed.

(** C4.  For every import, in either mode and over any sequence of pairs,
    the pool built by the import becomes the active pool if and only if at
    least one order was added, or the mode is Replace and the sequence of
    pairs is not empty; otherwise the session state, and the active pool
    with it, is exactly as it was. *)
Theorem pool_swap_guard (mode : import_mode) (pairs : list (string * string))
    (s : session_state) :
  (process_orders mode pairs s).1
  = if decide (0 < total_new (import_loop mode (order_pool s) pairs).2
               ∨ (mode = Replace ∧ pairs ≠ []))
    then set_order_pool (import_loop mode (order_pool s) pairs).1 s
    else s.
Proof.
  unfold process_orders.
  destruct (import_loop mode (order_pool s) pairs) as [new_orders t].
  simpl.
  destruct (0 <? total_new t) eqn:Hnew; simpl.
  - apply Nat.ltb_lt in Hnew. by rewrite decide_True by (by left).
  - apply Nat.ltb_ge in Hnew.
    destruct mode; simpl.
    + rewrite decide_False; [done|]. intros [?|[? _]]; [lia|done].
    + destruct pairs as [|pair pairs]; simpl.
      * rewrite decide_False; [done|]. intros [?|[_ ?]]; [lia|done].
      * by rewrite decide_True by (by right).
Qed.

(** ** Ledger commit *)

Lemma recorded_iff order (ledger : list winner) :
  existsb (λ winner, bool_decide (order_no winner = order)) ledger = true
  ↔ records_of order ledger ≠ 0.
Proof.
  unfold records_of. induction ledger as [|w ledger IH]; simpl.
  - done.
  - rewrite filter_cons. destruct (decide (order_no w = order)) as [Heq|Hne].
    + rewrite bool_decide_eq_true_2 by done. simpl. done.
    + rewrite bool_decide_eq_false_2 by done. simpl. done.
Qed.

Lemma records_of_app order (l1 l2 : list winner) :
  records_of order (l1 ++ l2) = records_of order l1 + records_of order l2.
Proof. unfold records_of. by rewrite filter_app, length_app. Qed.

Lemma records_of_one order o p t :
  records_of order [Winner o p t] = if decide (o = order) then 1 else 0.
Proof.
  unfold records_of. rewrite filter_cons. simpl.
  by destruct (decide (o = order)).
Qed.

Lemma commit_entry_cases (ledger : list winner) (b : bool) o p t :
  commit_entry (ledger, b) (o, p, t)
  = if decide (records_of o ledger = 0)
    then (ledger ++ [Winner o p t], true) else (ledger, b).
Proof.
  unfold commit_entry.
  destruct (existsb _ ledger) eqn:He.
  - apply recorded_iff in He. by rewrite decide_False.
  - rewrite decide_True; [done|].
    destruct (decide (records_of o ledger = 0)) as [|Hne]; [done|].
    apply recorded_iff in Hne. congruence.
Qed.

(** The number of records per order number after a commit. *)
Lemma commit_records order round : ∀ (ledger : list winner) (b : bool),
  records_of order (foldl commit_entry (ledger, b) round).1
  = if decide (records_of order ledger = 0)
    then (if decide (order ∈ entry_order <$> round) then 1 else 0)
    else records_of order ledger.
Proof.
  induction round as [|[[o p] t] round IH]; intros ledger b.
  - simpl. by destruct (decide (records_of order ledger = 0)) as [->|].
  - cbn [foldl]. rewrite commit_entry_cases, fmap_cons.
    change (entry_order (o, p, t)) with o.
    destruct (decide (records_of o ledger = 0)) as [Ho|Ho]; rewrite IH.
    + rewrite records_of_app, records_of_one.
      destruct (decide (o = order)) as [->|Hne].
      * rewrite Ho. simpl. rewrite decide_True by constructor. done.
      * rewrite Nat.add_0_r.
        destruct (decide (records_of order ledger = 0)); [|done].
        destruct (decide (order ∈ entry_order <$> round)) as [Hin|Hin].
        -- by rewrite decide_True by (by constructor).
        -- rewrite decide_False; [done|].
           intros [?|?]%elem_of_cons; [congruence|done].
    + destruct (decide (records_of order ledger = 0)) as [Hz|]; [|done].
      assert (order ≠ o) by congruence.
      destruct (decide (order ∈ entry_order <$> round)) as [Hin|Hin].
      * by rewrite decide_True by (by constructor).
      * rewrite decide_False; [done|].
        intros [?|?]%elem_of_cons; [congruence|done].
Qed.

(** A round whose order numbers are all recorded leaves ledger and flag. *)
Lemma commit_recorded round : ∀ (ledger : list winner) (b : bool),
  (∀ e, e ∈ round → records_of (entry_order e) ledger ≠ 0) →
  foldl commit_entry (ledger, b) round = (ledger, b).
Proof.
  induction round as [|[[o p] t] round IH]; intros ledger b Hall; [done|].
  cbn [foldl]. rewrite commit_entry_cases.
  rewrite decide_False by (apply (Hall (o, p, t)); constructor).
  apply IH. intros e He. apply Hall. by constructor.
Qed.

Lemma commit_twice (ledger : list winner) round :
  commit_round (commit_round ledger round).1 round
  = ((commit_round ledger round).1, false).
Proof.
  unfold commit_round at 1. apply commit_recorded.
  intros e He. unfold commit_round. rewrite commit_records.
  destruct (decide (records_of (entry_order e) ledger = 0)); [|done].
  rewrite decide_True; [done|]. by apply list_elem_of_fmap_2.
Qed.

(** C7.  The ledger commit is idempotent on the order number.  (1) An
    entry whose order number is already in the ledger appends nothing and
    reports no addition.  (2) Committing the same round a second time
    returns the ledger of the first commit and reports no addition.  (3) For
    every order number, a commit leaves the number of its records as it was
    if there was one, and makes it exactly one if there was none and the
    round has it: no commit yields two records of one order number.  (4) A
    confirmation of a round already in the ledger shows the informational
    message, writes no file and leaves the ledger. *)
Theorem commit_idempotent (ledger : list winner) (round : list entry) :
  (∀ before w after platform time,
     commit_round (before ++ w :: after) [(order_no w, platform, time)]
     = (before ++ w :: after, false))
  ∧ commit_round (commit_round ledger round).1 round
    = ((commit_round ledger round).1, false)
  ∧ (∀ order,
       records_of order (commit_round ledger round).1
       = if decide (records_of order ledger = 0)
         then (if decide (order ∈ entry_order <$> round) then 1 else 0)
         else records_of order ledger)
  ∧ (∀ s fs,
       head (confirm_handler true
               (World (set_final_winners round
                         (set_winners (commit_round ledger round).1 s)) fs)).2
       = Some AlreadyRecorded
       ∧ disk (confirm_handler true
                 (World (set_final_winners round
                           (set_winners (commit_round ledger round).1 s)) fs)).1
         = fs
       ∧ winners (ss (confirm_handler true
                 (World (set_final_winners round
                           (set_winners (commit_round ledger round).1 s)) fs)).1)
         = (commit_round ledger round).1).
Proof.
  split_and!.
  - intros before w after platform time.
    unfold commit_round. cbn [foldl]. rewrite commit_entry_cases.
    rewrite decide_False; [done|].
    rewrite records_of_app. unfold records_of at 2.
    rewrite filter_cons, decide_True by done. simpl. lia.
  - apply commit_twice.
  - intros order. apply commit_records.
  - intros s fs. unfold confirm_handler. cbn [ss disk].
    change (winners (set_final_winners round
              (set_winners (commit_round ledger round).1 s)))
      with (commit_round ledger round).1.
    change (final_winners (set_final_winners round
              (set_winners (commit_round ledger round).1 s)))
      with round.
    rewrite commit_twice.
    destruct round; done.
Qed.

Lemma commit_grows round : ∀ (ledger : list winner) (b : bool),
  length ledger ≤ length (foldl commit_entry (ledger, b) round).1
  ∧ ((foldl commit_entry (ledger, b) round).2 = true →
     b = true ∨ length ledger < length (foldl commit_entry (ledger, b) round).1).
Proof.
  induction round as [|[[o p] t] round IH]; intros ledger b.
  - simpl. auto.
  - cbn [foldl]. rewrite commit_entry_cases.
    destruct (decide (records_of o ledger = 0)).
    + destruct (IH (ledger ++ [Winner o p t]) true) as [Hle _].
      rewrite length_app in Hle. simpl in Hle. split; [lia|]. intros _. lia.
    + apply IH.
Qed.

Lemma save_winners_failed winners_data fs :
  (save_winners winners_data fs).1 = false →
  save_winners winners_data fs = (false, fs).
Proof. unfold save_winners. by destruct (write_json _ _ fs). Qed.

(** C10.  Round confirmation with save requested, when there is something
    to save and [save_winners] returns false: the appended records stay in
    the winner ledger of the session (it is longer than before), no file has
    changed, the failure is reported, and the round accumulator and the
    current candidate are cleared all the same. *)
Theorem failed_save_keeps_appended (w : world) :
  (commit_round (winners (ss w)) (final_winners (ss w))).2 = true →
  (save_winners (commit_round (winners (ss w)) (final_winners (ss w))).1
     (disk w)).1 = false →
  winners (ss (confirm_handler true w).1)
  = (commit_round (winners (ss w)) (final_winners (ss w))).1
  ∧ length (winners (ss w)) < length (winners (ss (confirm_handler true w).1))
  ∧ disk (confirm_handler true w).1 = disk w
  ∧ final_winners (ss (confirm_handler true w).1) = []
  ∧ current_rolling_order (ss (confirm_handler true w).1) = ("", "")
  ∧ ResultsNotSaved ∈ (confirm_handler true w).2.
Proof.
  intros Hadded Hfail. apply save_winners_failed in Hfail.
  destruct (commit_grows (final_winners (ss w)) (winners (ss w)) false)
    as [_ Hlt].
  fold (commit_round (winners (ss w)) (final_winners (ss w))) in Hlt.
  specialize (Hlt Hadded) as [?|Hlt]; [done|].
  unfold confirm_handler.
  destruct (commit_round (winners (ss w)) (final_winners (ss w)))
    as [ledger added] eqn:Hc.
  simpl in Hadded, Hfail, Hlt. subst added. rewrite Hfail.
  destruct (final_winners (ss w)) as [|e round] eqn:Hround.
  - unfold commit_round in Hc. simpl in Hc. congruence.
  - simpl. rewrite Hround. simpl. split_and!; try done.
    set_solver.
Qed.

Lemma failed_save_keeps_appended_witness :
  winners (ss (confirm_handler true (World round_of_two stuck_disk)).1)
  = [Winner "3" "A" "t1"; Winner "2" "A" "t2"]
  ∧ disk (confirm_handler true (World round_of_two stuck_disk)).1 = stuck_disk
  ∧ final_winners (ss (confirm_handler true (World round_of_two stuck_disk)).1)
    = [].
Proof.
  destruct (failed_save_keeps_appended (World round_of_two stuck_disk))
    as (Hw & _ & Hd & Hf & _).
  - reflexivity.
  - vm_compute. reflexivity.
  - split_and!; [exact Hw | exact Hd | exact Hf].
Defined.

(** ** Two-step destructive operations *)





(** ** The two resets and the files *)

Lemma write_json_lookup path v fs fs' :
  write_json path v fs = Some fs' →
  ∀ other, files fs' !! other
           = if decide (path = other) then Some (Json v) else files fs !! other.
Proof.
  unfold write_json. destruct (decide (path ∈ readonly fs)); [done|].
  intros [= <-] other. simpl. apply lookup_insert.
Qed.

(** The confirmed ledger reset writes the empty array to the snapshot file
    of the order pool whenever that file can be written. *)
Lemma confirm_reset_history_pool_file (w : world) :
  reset_history_confirmed (ss w) = true →
  ORDER_POOL_FILE ∉ readonly (disk w) →
  files (disk (confirm_reset_history_button w)) !! ORDER_POOL_FILE
  = Some (Json (VList [])).
Proof.
  intros Hp Hw. unfold confirm_reset_history_button. rewrite Hp.
  destruct (write_json ORDER_POOL_FILE (VList []) (disk w)) as [fs1|] eqn:H1.
  - pose proof (write_json_lookup _ _ _ _ H1 ORDER_POOL_FILE) as Hl.
    rewrite decide_True in Hl by done.
    assert (files (save_winners [] fs1).2 !! ORDER_POOL_FILE
            = Some (Json (VList []))) as Hs.
    { unfold save_winners.
      destruct (write_json WINNERS_FILE (VList []) fs1) as [fs2|] eqn:H2;
        [|done].
      simpl. rewrite (write_json_lookup _ _ _ _ H2).
      by rewrite decide_False by (by vm_compute). }
    destruct (read_json ORDER_POOL_FILE fs1) as [[[|]|]|];
      by destruct (save_winners [] fs1).
  - unfold write_json in H1. by rewrite decide_False in H1.
Qed.

(** C1, evaluated.  With a snapshot of the order pool on disk and the
    ledger reset pending, the confirm press empties the winner ledger file,
    and it also replaces the snapshot of the order pool by an empty array:
    the next load of the order pool returns that array, not the pool. *)
Theorem ledger_reset_overwrites_pool_snapshot :
  files (disk history_reset_pending) !! ORDER_POOL_FILE
  = Some (Json (VDict saved_pool))
  ∧ files (disk (confirm_reset_history_button history_reset_pending))
      !! WINNERS_FILE = Some (Json (VList []))
  ∧ files (disk (confirm_reset_history_button history_reset_pending))
      !! ORDER_POOL_FILE = Some (Json (VList []))
  ∧ load_initial_order_pool
      (disk (confirm_reset_history_button history_reset_pending)) = VList [].
Proof. vm_compute. done. Qed.

(** The confirmed pool reset does round-trip through the snapshot file when
    the process runs in the persistence directory and the file can be
    written. *)
Lemma pool_reset_round_trip_in_persist_dir (w : world) :
  reset_confirmed (ss w) = true →
  path_join (cwd (disk w)) "initial_order_pool.json" = ORDER_POOL_FILE →
  ORDER_POOL_FILE ∉ readonly (disk w) →
  order_pool (ss (confirm_reset_pool_button w)) = empty_order_pool
  ∧ load_initial_order_pool (disk (confirm_reset_pool_button w))
    = VDict empty_order_pool.
Proof.
  intros Hp Hcwd Hw. unfold confirm_reset_pool_button. rewrite Hp, Hcwd.
  destruct (write_json ORDER_POOL_FILE (VDict empty_order_pool) (disk w))
    as [fs1|] eqn:H1.
  - pose proof (write_json_lookup _ _ _ _ H1 ORDER_POOL_FILE) as Hl.
    rewrite decide_True in Hl by done.
    unfold read_json. rewrite Hl. simpl. split; [done|].
    unfold load_initial_order_pool, path_exists, read_json. rewrite Hl.
    by rewrite bool_decide_eq_true_2 by eauto.
  - unfold write_json in H1. by rewrite decide_False in H1.
Qed.

(** C2, evaluated.  With the process running in another directory than
    [PERSIST_DIR], the confirmed pool reset empties the pool of the session
    and writes the empty pool to a file of the working directory; the
    snapshot that the load reads is untouched, and the load still returns
    the pool saved before the reset. *)
Theorem pool_reset_misses_snapshot :
  order_pool (ss (confirm_reset_pool_button pool_reset_pending))
  = empty_order_pool
  ∧ files (disk (confirm_reset_pool_button pool_reset_pending))
      !! "/home/app/initial_order_pool.json"
    = Some (Json (VDict empty_order_pool))
  ∧ load_initial_order_pool (disk (confirm_reset_pool_button pool_reset_pending))
    = VDict saved_pool
  ∧ VDict saved_pool ≠ VDict empty_order_pool.
Proof. vm_compute. split_and!; done. Qed.

(** ** Text import *)

Lemma split1_bytes_no_sep sep (l : list ascii) :
  sep ∉ l → split1_bytes sep l = [l].
Proof.
  induction l as [|c l IH]; intros Hsep; [done|].
  simpl. rewrite decide_False by (intros ->; apply Hsep; constructor).
  rewrite IH; [done|]. intros ?. apply Hsep. by constructor.
Qed.

(** A line without a comma adds no pair, whatever its text: it reaches
    neither [process_orders] nor any tally. *)
Lemma line_without_comma_dropped pairs line :
  comma ∉ list_ascii_of_string (strip line) →
  parse_line pairs line = pairs.
Proof.
  intros Hsep. unfold parse_line, str_split1.
  destruct (is_empty (strip line)); [done|].
  by rewrite split1_bytes_no_sep.
Qed.

(** C9, evaluated.  Text of three lines whose second line has no comma,
    imported in Append mode into an empty pool: the lines before and after
    the malformed one are imported, and the report counts no error. *)
Theorem malformed_line_not_counted :
  parse_lines text_with_malformed_line = [("A", "1"); ("B", "2")]
  ∧ order_pool
      (import_text_button Append text_with_malformed_line
         (fresh_session [] [])).1
    = [("A", ["1"]); ("B", ["2"])]
  ∧ (import_text_button Append text_with_malformed_line
       (fresh_session [] [])).2
    = [ImportSucceeded 2 0 0; PoolTotals 2 2].
Proof. vm_compute. done. Qed.

(** ** The drawing page *)


Lemma set_current_same (s : session_state) :
  set_current_rolling_order (current_rolling_order s) s = s.
Proof. by destruct s. Qed.

Lemma choice_elem {A} (r : nat) (l : list A) :
  l ≠ [] → ∃ x, choice r l = Some x ∧ x ∈ l.
Proof.
  intros Hl. unfold choice.
  assert (r mod length l < length l) as Hlt.
  { apply Nat.mod_upper_bound. by destruct l. }
  destruct (lookup_lt_is_Some_2 l _ Hlt) as [x Hx].
  exists x. split; [done|]. by eapply list_elem_of_lookup_2.
Qed.

(** The frames of the loop only replace the current candidate, by an
    eligible order. *)
Lemma rolling_frames_candidate (s : session_state) rs : ∀ c,
  eligible_orders s ≠ [] → c ∈ eligible_orders s →
  ∃ c', foldl rolling_frame (set_current_rolling_order c s) rs
        = set_current_rolling_order c' s
        ∧ c' ∈ eligible_orders s.
Proof.
  induction rs as [|r rs IH]; intros c Hne Hc.
  - exists c. done.
  - cbn [foldl]. unfold rolling_frame at 2.
    change (eligible_orders (set_current_rolling_order c s))
      with (eligible_orders s).
    destruct (choice_elem r (eligible_orders s) Hne) as (x & -> & Hx).
    by apply IH.
Qed.

Lemma rolling_phase_candidate frames (s : session_state) :
  ∃ c, rolling_phase frames s = set_current_rolling_order c s
       ∧ (if loop_entered s then c ∈ eligible_orders s
          else c = current_rolling_order s).
Proof.
  unfold rolling_phase. destruct (loop_entered s) eqn:Hloop.
  - assert (eligible_orders s ≠ []) as Hne.
    { unfold loop_entered in Hloop. apply andb_true_iff in Hloop as [_ Hl].
      apply negb_true_iff, bool_decide_eq_false in Hl. done. }
    cbn [foldl]. unfold rolling_frame at 2.
    destruct (choice_elem frames.1 (eligible_orders s) Hne) as (x & -> & Hx).
    by apply rolling_frames_candidate.
  - exists (current_rolling_order s). by rewrite set_current_same.
Qed.










Lemma not_winner_fresh (s : session_state) order :
  is_already_winner s order = false → order ∉ accumulator_orders s.
Proof.
  unfold is_already_winner, accumulator_orders.
  induction (final_winners s) as [|e l IH]; simpl.
  - intros _. apply not_elem_of_nil.
  - intros [He Hl]%orb_false_iff. apply bool_decide_eq_false in He.
    rewrite elem_of_cons. intros [?|?]; [congruence|by apply IH].
Qed.



Lemma start_handler_cases (s : session_state) :
  start_handler s = s
  ∨ (start_handler s = set_is_rolling true s ∧ eligible_orders s ≠ []).
Proof.
  unfold start_handler.
  destruct (bool_decide (selected_platforms s = [])); [by left|].
  destruct (total_orders_in_selected_platforms s <=? winner_count s);
    [by left|].
  destruct (bool_decide (length (eligible_orders s) = 0)) eqn:He; [by left|].
  right. split; [done|].
  apply bool_decide_eq_false in He. by rewrite length_zero_iff_nil in He.
Qed.

Lemma confirm_handler_round save (w : world) :
  final_winners (ss (confirm_handler save w).1) = []
  ∧ is_rolling (ss (confirm_handler save w).1) = is_rolling (ss w)
  ∧ winner_count (ss (confirm_handler save w).1) = winner_count (ss w).
Proof.
  unfold confirm_handler.
  destruct save.
  - destruct (commit_round (winners (ss w)) (final_winners (ss w)))
      as [ledger [|]].
    + destruct (save_winners ledger (disk w)) as [ok fs]. simpl.
      by destruct (final_winners (ss w)) eqn:Hf.
    + simpl. by destruct (final_winners (ss w)) eqn:Hf.
  - simpl. by destruct (final_winners (ss w)) eqn:Hf.
Qed.









(** * Further properties *)

(** ** Persistence *)


Lemma write_json_writable path v fs :
  path ∉ readonly fs → is_Some (write_json path v fs).
Proof. intros Hw. unfold write_json. rewrite decide_False by done. eauto. Qed.

Lemma load_winners_stored fs v :
  files fs !! WINNERS_FILE = Some (Json v) → load_winners fs = v.
Proof.
  intros Hl. unfold load_winners, path_exists, read_json. rewrite Hl.
  by rewrite bool_decide_eq_true_2 by eauto.
Qed.

Lemma load_pool_stored fs v :
  files fs !! ORDER_POOL_FILE = Some (Json v) →
  load_initial_order_pool fs = v.
Proof.
  intros Hl. unfold load_initial_order_pool, path_exists, read_json.
  rewrite Hl. by rewrite bool_decide_eq_true_2 by eauto.
Qed.

(** X1.  A save of the ledger that reports success is read back by the
    load as the very list saved, and no other file has changed. *)
Theorem save_then_load_winners (winners_data : list winner) (fs : filesystem) :
  (save_winners winners_data fs).1 = true →
  load_winners (save_winners winners_data fs).2 = VList winners_data
  ∧ ∀ path, path ≠ WINNERS_FILE →
      files (save_winners winners_data fs).2 !! path = files fs !! path.
Proof.
  unfold save_winners.
  destruct (write_json WINNERS_FILE (VList winners_data) fs) as [fs'|] eqn:Hw;
    [|done].
  intros _. simpl. pose proof (write_json_lookup _ _ _ _ Hw) as Hl. split.
  - apply load_winners_stored. by rewrite Hl, decide_True.
  - intros path Hne. by rewrite Hl, decide_False.
Qed.

Lemma save_then_load_winners_witness :
  load_winners (save_winners saved_ledger empty_disk).2 = VList saved_ledger.
Proof.
  apply (save_then_load_winners saved_ledger empty_disk). reflexivity.
Defined.

(** X2.  A save of the order pool that reports success is read back by the
    load as the very pool saved, platform order included, and no other file
    has changed. *)
Theorem save_then_load_order_pool (order_pool_data : pool) (fs : filesystem) :
  (save_initial_order_pool order_pool_data fs).1 = true →
  load_initial_order_pool (save_initial_order_pool order_pool_data fs).2
  = VDict order_pool_data
  ∧ ∀ path, path ≠ ORDER_POOL_FILE →
      files (save_initial_order_pool order_pool_data fs).2 !! path
      = files fs !! path.
Proof.
  unfold save_initial_order_pool.
  destruct (write_json ORDER_POOL_FILE (VDict order_pool_data) fs)
    as [fs'|] eqn:Hw; [|done].
  intros _. simpl. pose proof (write_json_lookup _ _ _ _ Hw) as Hl. split.
  - apply load_pool_stored. by rewrite Hl, decide_True.
  - intros path Hne. by rewrite Hl, decide_False.
Qed.

Lemma save_then_load_order_pool_witness :
  load_initial_order_pool (save_initial_order_pool saved_pool empty_disk).2
  = VDict saved_pool.
Proof.
  apply (save_then_load_order_pool saved_pool empty_disk). reflexivity.
Defined.



(** ** The confirm presses *)



(** X5.  The confirmed save of the order pool, when the snapshot file can
    be written: the next load returns the order pool of the session, the
    session state is unchanged but for the cleared flag, and no other file
    is touched. *)
Theorem confirmed_save_is_loaded (w : world) :
  confirm_save (ss w) = true →
  ORDER_POOL_FILE ∉ readonly (disk w) →
  load_initial_order_pool (disk (confirm_save_button w))
  = VDict (order_pool (ss w))
  ∧ ss (confirm_save_button w) = set_confirm_save false (ss w)
  ∧ ∀ path, path ≠ ORDER_POOL_FILE →
      files (disk (confirm_save_button w)) !! path = files (disk w) !! path.
Proof.
  intros Hp Hw. unfold confirm_save_button. rewrite Hp.
  destruct (write_json_writable ORDER_POOL_FILE
              (VDict (order_pool (ss w))) (disk w) Hw) as [fs1 H1].
  unfold save_initial_order_pool. rewrite H1. cbn [ss disk].
  pose proof (write_json_lookup _ _ _ _ H1) as Hl. split_and!; [|done|].
  - apply load_pool_stored. by rewrite Hl, decide_True.
  - intros path Hne. by rewrite Hl, decide_False.
Qed.

Lemma confirmed_save_is_loaded_witness :
  load_initial_order_pool (disk (confirm_save_button save_pending))
  = VDict saved_pool.
Proof.
  destruct (confirmed_save_is_loaded save_pending) as (H1 & _).
  - reflexivity.
  - vm_compute. set_solver.
  - exact H1.
Defined.

(** X6.  The confirmed reset of the order pool, in any working directory
    and whether or not its file can be written: the order pool of the
    session is the six platforms without orders, the flag is cleared and
    the rest of the session state, the winner ledger and the round
    included, is as it was; the only file that can change is
    [initial_order_pool.json] of the working directory. *)
Theorem pool_reset_empties_session_pool (w : world) :
  reset_confirmed (ss w) = true →
  ss (confirm_reset_pool_button w)
  = set_reset_confirmed false (set_order_pool empty_order_pool (ss w))
  ∧ total_orders (order_pool (ss (confirm_reset_pool_button w))) = 0
  ∧ ∀ path, path ≠ path_join (cwd (disk w)) "initial_order_pool.json" →
      files (disk (confirm_reset_pool_button w)) !! path
      = files (disk w) !! path.
Proof.
  intros Hp. unfold confirm_reset_pool_button. rewrite Hp.
  destruct (write_json _ (VDict empty_order_pool) (disk w)) as [fs1|] eqn:H1.
  - pose proof (write_json_lookup _ _ _ _ H1) as Hl.
    destruct (read_json _ fs1) as [[|]|]; cbn [ss disk];
      (split_and!; [done|done|]); intros path Hne;
      by rewrite Hl, decide_False.
  - done.
Qed.

Lemma pool_reset_empties_session_pool_witness :
  order_pool (ss (confirm_reset_pool_button pool_reset_pending))
  = empty_order_pool
  ∧ winners (ss (confirm_reset_pool_button pool_reset_pending)) = saved_ledger
  ∧ files (disk (confirm_reset_pool_button pool_reset_pending)) !! WINNERS_FILE
    = Some (Json (VList saved_ledger)).
Proof.
  destruct (pool_reset_empties_session_pool pool_reset_pending)
    as (H1 & _ & H2); [reflexivity|].
  rewrite H1. split_and!; [reflexivity..|].
  rewrite H2; [reflexivity|]. by vm_compute.
Defined.

(** ** Import: what the pool holds afterwards *)

Section DictMore.
Context {V : Type}.
Implicit Types (d : dict V) (k : string) (v : V).

Lemma dict_get_set_ne d k k' v :
  k ≠ k' → dict_get k' (dict_set k v d) = dict_get k' d.
Proof.
  intros Hne. induction d as [|[k0 v0] d IH]; simpl.
  - by rewrite decide_False.
  - destruct (decide (k0 = k)) as [->|Hk]; simpl.
    + by rewrite !decide_False.
    + destruct (decide (k0 = k')); [done|apply IH].
Qed.

Lemma dict_get_elem d k v : dict_get k d = Some v → (k, v) ∈ d.
Proof.
  induction d as [|[k0 v0] d IH]; simpl; [done|].
  destruct (decide (k0 = k)) as [->|Hk].
  - intros [= ->]. constructor.
  - intros H. constructor. by apply IH.
Qed.

Lemma dict_get_None_keys d k : dict_get k d = None → k ∉ dict_keys d.
Proof.
  unfold dict_keys. induction d as [|[k0 v0] d IH]; simpl.
  - intros _. apply not_elem_of_nil.
  - destruct (decide (k0 = k)) as [->|Hk]; [done|].
    intros H. rewrite elem_of_cons.
    intros [?|?]; [congruence|by apply IH].
Qed.

Lemma dict_keys_set d k v :
  dict_keys (dict_set k v d)
  = if dict_contains k d then dict_keys d else dict_keys d ++ [k].
Proof.
  unfold dict_keys, dict_contains. induction d as [|[k0 v0] d IH]; [done|].
  cbn [dict_set dict_get].
  destruct (decide (k0 = k)) as [->|Hk]; rewrite ?fmap_cons; [done|].
  rewrite IH. by destruct (dict_get k d).
Qed.

Lemma dict_set_Forall (Q : V → Prop) d k v :
  Forall (λ kv, Q kv.2) d → Q v → Forall (λ kv, Q kv.2) (dict_set k v d).
Proof.
  intros Hd Hv. induction Hd as [|[k0 v0] d H0 Hd IH]; simpl.
  - by repeat constructor.
  - destruct (decide (k0 = k)); by constructor.
Qed.

Lemma dict_get_Forall (Q : V → Prop) d k v :
  Forall (λ kv, Q kv.2) d → dict_get k d = Some v → Q v.
Proof.
  intros Hd Hg. apply dict_get_elem in Hg.
  rewrite Forall_forall in Hd. by apply (Hd (k, v)).
Qed.
End DictMore.

Lemma listed_spec_add (p : pool) platform order platform' order' :
  listed (spec_add p platform order) platform' order'
  ↔ listed p platform' order' ∨ (platform' = platform ∧ order' = order).
Proof.
  unfold listed, spec_add.
  destruct (decide (platform = platform')) as [<-|Hne].
  - rewrite dict_get_set_eq. simpl. rewrite elem_of_app, list_elem_of_singleton.
    tauto.
  - rewrite dict_get_set_ne by done. split; [tauto|].
    intros [?|[? ?]]; [done|congruence].
Qed.

(** The pool after the loop holds what it held plus the valid pairs. *)
Lemma listed_spec_import pairs : ∀ (p : pool) platform order,
  listed (spec_import p pairs).1 platform order
  ↔ listed p platform order
    ∨ ((platform, order) ∈ pairs ∧ platform ≠ "" ∧ order ≠ "").
Proof.
  induction pairs as [|[pl o] pairs IH]; intros p platform order.
  - simpl. rewrite elem_of_nil. tauto.
  - cbn [spec_import]. rewrite elem_of_cons.
    destruct (decide (pl = "" ∨ o = "")) as [Herr|Hok].
    + specialize (IH p platform order).
      destruct (spec_import p pairs) as [p' t']. simpl in *.
      rewrite IH. split; [tauto|].
      intros [?|[[[= -> ->]|?] [? ?]]]; tauto.
    + destruct (decide (o ∈ default [] (dict_get pl p))) as [Hdup|Hnew].
      * specialize (IH p platform order).
        destruct (spec_import p pairs) as [p' t']. simpl in *.
        rewrite IH. split; [tauto|].
        intros [?|[[[= -> ->]|?] [? ?]]]; [tauto|by left|tauto].
      * specialize (IH (spec_add p pl o) platform order).
        destruct (spec_import (spec_add p pl o) pairs) as [p' t'].
        simpl in *. rewrite IH, listed_spec_add. split.
        -- intros [[?|[-> ->]]|?]; [tauto| |tauto]. right. tauto.
        -- intros [?|[[[= -> ->]|?] [? ?]]]; tauto.
Qed.

Lemma spec_import_nothing_new pairs : ∀ p : pool,
  total_new (spec_import p pairs).2 = 0 → (spec_import p pairs).1 = p.
Proof.
  induction pairs as [|[pl o] pairs IH]; intros p; [done|].
  cbn [spec_import].
  destruct (decide (pl = "" ∨ o = "")).
  - specialize (IH p). destruct (spec_import p pairs) as [p' t']. apply IH.
  - destruct (decide (o ∈ default [] (dict_get pl p))).
    + specialize (IH p). destruct (spec_import p pairs) as [p' t']. apply IH.
    + by destruct (spec_import (spec_add p pl o) pairs) as [p' t'].
Qed.

Lemma spec_import_all_listed pairs : ∀ p : pool,
  (∀ platform order, (platform, order) ∈ pairs →
     platform ≠ "" → order ≠ "" → listed p platform order) →
  total_new (spec_import p pairs).2 = 0.
Proof.
  induction pairs as [|[pl o] pairs IH]; intros p Hall; [done|].
  cbn [spec_import].
  assert (total_new (spec_import p pairs).2 = 0) as Hrest.
  { apply IH. intros ?? Hin. apply Hall. by constructor. }
  destruct (decide (pl = "" ∨ o = "")) as [|Hok].
  - by destruct (spec_import p pairs) as [p' t'].
  - destruct (decide (o ∈ default [] (dict_get pl p))) as [|Hnew].
    + by destruct (spec_import p pairs) as [p' t'].
    + exfalso. apply Hnew. apply Hall; [constructor|tauto..].
Qed.

(** The active pool after an import is the pool built by the loop, or the
    pool before when the loop added nothing to it. *)
Lemma process_orders_pool mode pairs (s : session_state) :
  (order_pool (process_orders mode pairs s).1
   = (spec_import (import_start mode (order_pool s)) pairs).1
   ∧ (0 < total_new (spec_import (import_start mode (order_pool s)) pairs).2
      ∨ (mode = Replace ∧ pairs ≠ [])))
  ∨ ((process_orders mode pairs s).1 = s
     ∧ (mode = Append ∨ pairs = [])
     ∧ total_new (spec_import (import_start mode (order_pool s)) pairs).2 = 0).
Proof.
  unfold process_orders. rewrite import_loop_spec.
  destruct (spec_import (import_start mode (order_pool s)) pairs)
    as [new_orders t]. simpl.
  destruct (0 <? total_new t) eqn:Hnew; simpl.
  - left. apply Nat.ltb_lt in Hnew. auto.
  - apply Nat.ltb_ge in Hnew.
    destruct mode; simpl.
    + right. split_and!; [done|by left|lia].
    + destruct pairs; simpl.
      * right. split_and!; [done|by right|lia].
      * left. split; [done|]. by right.
Qed.

Lemma listed_empty platform order : ¬ listed [] platform order.
Proof. unfold listed. simpl. apply not_elem_of_nil. Qed.

(** X7.  After an import in Append mode the active pool lists an order
    under a platform exactly when it listed it before or the input has that
    pair with both fields non-empty: nothing is lost, every valid pair is
    in, and nothing else is. *)
Theorem append_import_membership (pairs : list (string * string))
    (s : session_state) (platform order : string) :
  listed (order_pool (process_orders Append pairs s).1) platform order
  ↔ listed (order_pool s) platform order
    ∨ ((platform, order) ∈ pairs ∧ platform ≠ "" ∧ order ≠ "").
Proof.
  pose proof (listed_spec_import pairs (order_pool s) platform order) as Hl.
  destruct (process_orders_pool Append pairs s) as [[-> _]|(-> & _ & Hnew)].
  - exact Hl.
  - simpl in Hnew. apply spec_import_nothing_new in Hnew.
    by rewrite Hnew in Hl.
Qed.

(** X8.  After an import in Replace mode of a non-empty input the active
    pool lists exactly the input pairs with both fields non-empty: nothing
    of the pool before is kept. *)
Theorem replace_import_membership (pairs : list (string * string))
    (s : session_state) (platform order : string) :
  pairs ≠ [] →
  listed (order_pool (process_orders Replace pairs s).1) platform order
  ↔ (platform, order) ∈ pairs ∧ platform ≠ "" ∧ order ≠ "".
Proof.
  intros Hne.
  pose proof (listed_spec_import pairs [] platform order) as Hl.
  pose proof (listed_empty platform order).
  destruct (process_orders_pool Replace pairs s)
    as [[-> _]|(_ & [?|?] & _)]; [|done..].
  simpl. tauto.
Qed.

Lemma replace_import_membership_witness :
  listed (order_pool
            (process_orders Replace [("A", "1"); ("", "2")]
               (fresh_session saved_pool [])).1) "A" "1"
  ∧ ¬ listed (order_pool
                (process_orders Replace [("A", "1"); ("", "2")]
                   (fresh_session saved_pool [])).1) "抖音" "D2023001".
Proof.
  split.
  - apply (replace_import_membership [("A", "1"); ("", "2")]
             (fresh_session saved_pool []) "A" "1"); [done|].
    split_and!; [constructor|done..].
  - intros H.
    apply (replace_import_membership [("A", "1"); ("", "2")]
             (fresh_session saved_pool []) "抖音" "D2023001") in H as [H _];
      [|done].
    apply elem_of_cons in H as [?|H]; [done|].
    apply elem_of_cons in H as [?|H]; [done|]. by apply elem_of_nil in H.
Defined.

Lemma process_orders_nothing_new pairs (s : session_state) :
  total_new (import_loop Append (order_pool s) pairs).2 = 0 →
  (process_orders Append pairs s).1 = s
  ∧ NothingImported ∈ (process_orders Append pairs s).2.
Proof.
  unfold process_orders.
  destruct (import_loop Append (order_pool s) pairs) as [new_orders t].
  simpl. intros ->. simpl. split; [done|].
  rewrite !elem_of_app, list_elem_of_singleton. auto.
Qed.

(** X9.  Importing the same pairs once more in Append mode changes
    nothing: after any import, a second import of the same input adds no
    order, leaves the session state as the first import left it, and
    reports that nothing was imported. *)
Theorem reimport_adds_nothing (mode : import_mode)
    (pairs : list (string * string)) (s : session_state) :
  total_new
    (import_loop Append (order_pool (process_orders mode pairs s).1) pairs).2
  = 0
  ∧ (process_orders Append pairs (process_orders mode pairs s).1).1
    = (process_orders mode pairs s).1
  ∧ NothingImported
    ∈ (process_orders Append pairs (process_orders mode pairs s).1).2.
Proof.
  assert (total_new
    (import_loop Append (order_pool (process_orders mode pairs s).1) pairs).2
    = 0) as Hzero.
  { rewrite import_loop_spec. simpl. apply spec_import_all_listed.
    intros platform order Hin Hp Ho.
    pose proof (listed_spec_import pairs (import_start mode (order_pool s))
                  platform order) as Hl.
    destruct (process_orders_pool mode pairs s)
      as [[-> _]|(-> & [-> | ->] & Hnew)].
    - apply Hl. auto.
    - simpl in *. apply spec_import_nothing_new in Hnew.
      rewrite Hnew in Hl. apply Hl. auto.
    - by apply elem_of_nil in Hin. }
  split; [done|]. by apply process_orders_nothing_new.
Qed.

(** X10.  An import in Replace mode whose input is not empty and has an
    empty field in every pair leaves no platform and no order in the active
    pool, and reports a successful import of no order with every pair
    counted as an error. *)
Theorem replace_with_errors_only_empties_pool (pairs : list (string * string))
    (s : session_state) :
  pairs ≠ [] →
  Forall (λ pair, pair.1 = "" ∨ pair.2 = "") pairs →
  order_pool (process_orders Replace pairs s).1 = []
  ∧ (process_orders Replace pairs s).2
    = [ImportSucceeded 0 0 (length pairs); PoolTotals 0 0].
Proof.
  intros Hne Herr.
  assert (spec_import [] pairs = ([], Tally 0 0 (length pairs))) as Hs.
  { clear Hne. induction Herr as [|[pl o] pairs Hp _ IH]; [done|].
    cbn [spec_import]. rewrite decide_True by done. by rewrite IH. }
  unfold process_orders. rewrite import_loop_spec. simpl import_start.
  rewrite Hs. destruct pairs; [done|]. done.
Qed.

Lemma replace_with_errors_only_empties_pool_witness :
  order_pool (process_orders Replace [("抖音", "")]
                (fresh_session saved_pool [])).1 = [].
Proof.
  apply (replace_with_errors_only_empties_pool [("抖音", "")]
           (fresh_session saved_pool [])); [done|].
  constructor; [by right|constructor].
Defined.

Lemma spec_add_wf (p : pool) platform order :
  pool_wf p → ¬ listed p platform order → pool_wf (spec_add p platform order).
Proof.
  intros [Hkeys Hvals] Hnew. unfold spec_add, listed in *. split.
  - rewrite dict_keys_set. unfold dict_contains.
    destruct (dict_get platform p) eqn:Hg; [done|].
    apply NoDup_app. split_and!; [done| |apply NoDup_singleton].
    intros k Hk ->%list_elem_of_singleton.
    by apply (dict_get_None_keys p platform).
  - apply (dict_set_Forall (λ l, NoDup l)); [done|].
    apply NoDup_app. split_and!; [| |apply NoDup_singleton].
    + destruct (dict_get platform p) eqn:Hg; simpl; [|apply NoDup_nil_2].
      by apply (dict_get_Forall (λ l, NoDup l) p platform).
    + by intros x Hx ->%list_elem_of_singleton.
Qed.

Lemma spec_import_wf pairs : ∀ p : pool,
  pool_wf p → pool_wf (spec_import p pairs).1.
Proof.
  induction pairs as [|[pl o] pairs IH]; intros p Hwf; [done|].
  cbn [spec_import].
  destruct (decide (pl = "" ∨ o = "")).
  - specialize (IH p Hwf). by destruct (spec_import p pairs).
  - destruct (decide (o ∈ default [] (dict_get pl p))) as [|Hnew].
    + specialize (IH p Hwf). by destruct (spec_import p pairs).
    + specialize (IH (spec_add p pl o) (spec_add_wf p pl o Hwf Hnew)).
      by destruct (spec_import (spec_add p pl o) pairs).
Qed.

(** X11.  The import keeps the invariant of the order pool: if every
    platform is one key and no list has an order number twice, the same
    holds of the active pool after an import in either mode; after a
    Replace import of a non-empty input it holds whatever the pool was. *)
Theorem import_keeps_pool_wf (mode : import_mode)
    (pairs : list (string * string)) (s : session_state) :
  (mode = Replace ∧ pairs ≠ []) ∨ pool_wf (order_pool s) →
  pool_wf (order_pool (process_orders mode pairs s).1).
Proof.
  intros Hpre.
  destruct (process_orders_pool mode pairs s)
    as [[-> _]|(-> & Hmode & _)].
  - apply spec_import_wf. destruct mode; simpl.
    + destruct Hpre as [[? _]|?]; done.
    + split; [apply NoDup_nil_2|constructor].
  - destruct Hpre as [[-> ?]|?]; [|done]. by destruct Hmode.
Qed.

Lemma import_keeps_pool_wf_witness :
  pool_wf (order_pool
             (process_orders Append [("A", "1"); ("A", "1"); ("B", "1")]
                (fresh_session default_order_pool [])).1)
  ∧ pool_wf (order_pool
               (process_orders Replace [("A", "1"); ("A", "1")]
                  (fresh_session [("A", ["1"; "1"])] [])).1).
Proof.
  split.
  - apply (import_keeps_pool_wf Append). right. split.
    + apply (bool_decide_unpack _). by vm_compute.
    + repeat constructor.
  - apply (import_keeps_pool_wf Replace). by left.
Defined.

(** ** Order query *)

Lemma find_platform_first order : ∀ p : pool,
  match find_platform order p with
  | Some platform_name =>
      ∃ before orders after,
        p = before ++ (platform_name, orders) :: after
        ∧ order ∈ orders
        ∧ Forall (λ kv, order ∉ kv.2) before
  | None => Forall (λ kv, order ∉ kv.2) p
  end.
Proof.
  induction p as [|[platform orders] p IH]; simpl; [constructor|].
  case_bool_decide as Hin.
  - exists [], orders, p. split_and!; [done|done|constructor].
  - destruct (find_platform order p) as [found|].
    + destruct IH as (before & orders' & after & -> & Hin' & Hbefore).
      exists ((platform, orders) :: before), orders', after.
      split_and!; [done|done|by constructor].
    + by constructor.
Qed.

(** X12.  The order query answers on the stripped input: it asks for an
    order number when that is empty; it reports the first platform, in the
    order of the pool, whose list holds the order number; and it reports
    the order as absent only when no list of the pool holds it. *)
Theorem order_query_first_match (order_input : string) (s : session_state) :
  match order_query_button order_input s with
  | QueryEmptyInput => strip order_input = ""
  | QueryFound platform_name =>
      strip order_input ≠ ""
      ∧ ∃ before orders after,
          order_pool s = before ++ (platform_name, orders) :: after
          ∧ strip order_input ∈ orders
          ∧ Forall (λ kv, strip order_input ∉ kv.2) before
  | QueryNotFound =>
      strip order_input ≠ ""
      ∧ Forall (λ kv, strip order_input ∉ kv.2) (order_pool s)
  end.
Proof.
  unfold order_query_button.
  destruct (is_empty (strip order_input)) eqn:He.
  - by apply is_empty_true.
  - assert (strip order_input ≠ "") as Hne.
    { intros H. apply is_empty_true in H. congruence. }
    pose proof (find_platform_first (strip order_input) (order_pool s)) as Hf.
    by destruct (find_platform (strip order_input) (order_pool s)).
Qed.

Lemma listed_found (p : pool) platform order :
  listed p platform order → is_Some (find_platform order p).
Proof.
  unfold listed. intros Hl.
  destruct (dict_get platform p) as [orders|] eqn:Hg;
    [|by apply elem_of_nil in Hl].
  apply dict_get_elem in Hg. simpl in Hl.
  pose proof (find_platform_first order p) as Hf.
  destruct (find_platform order p); [eauto|].
  rewrite Forall_forall in Hf. by destruct (Hf _ Hg).
Qed.

Lemma imported_pair_listed mode pairs (s : session_state) platform order :
  (platform, order) ∈ pairs → platform ≠ "" → order ≠ "" →
  listed (order_pool (process_orders mode pairs s).1) platform order.
Proof.
  intros Hin Hp Ho.
  pose proof (listed_spec_import pairs (import_start mode (order_pool s))
                platform order) as Hl.
  destruct (process_orders_pool mode pairs s)
    as [[-> _]|(-> & [-> | ->] & Hnew)].
  - apply Hl. auto.
  - simpl in *. apply spec_import_nothing_new in Hnew.
    rewrite Hnew in Hl. apply Hl. auto.
  - by apply elem_of_nil in Hin.
Qed.

(** X13.  Import and query compose: after an import in either mode, every
    input pair with both fields non-empty is listed in the active pool
    under its platform, and the order query for its order number (written
    without surrounding white space) reports a platform. *)
Theorem imported_order_is_found (mode : import_mode)
    (pairs : list (string * string)) (s : session_state)
    (platform order : string) :
  (platform, order) ∈ pairs → platform ≠ "" → order ≠ "" →
  strip order = order →
  listed (order_pool (process_orders mode pairs s).1) platform order
  ∧ ∃ platform_name,
      order_query_button order (process_orders mode pairs s).1
      = QueryFound platform_name.
Proof.
  intros Hin Hp Ho Hstrip.
  pose proof (imported_pair_listed mode pairs s platform order Hin Hp Ho)
    as Hl.
  split; [done|]. unfold order_query_button. rewrite Hstrip.
  assert (is_empty order = false) as ->.
  { apply not_true_is_false. by rewrite is_empty_true. }
  destruct (listed_found _ _ _ Hl) as [found ->]. eauto.
Qed.

Lemma imported_order_is_found_witness :
  ∃ platform_name,
    order_query_button "D2023001"
      (process_orders Replace [("抖音", "D2023001")] (fresh_session [] [])).1
    = QueryFound platform_name.
Proof.
  apply (imported_order_is_found Replace [("抖音", "D2023001")]
           (fresh_session [] []) "抖音" "D2023001");
    [constructor|done|done|by vm_compute].
Defined.

(** ** The drawing page: the eligible set *)

Lemma is_already_winner_false (s : session_state) order :
  is_already_winner s order = false ↔ order ∉ accumulator_orders s.
Proof.
  split; [apply not_winner_fresh|].
  unfold is_already_winner, accumulator_orders.
  induction (final_winners s) as [|e l IH]; simpl; [done|].
  rewrite not_elem_of_cons. intros [Hne Hl].
  rewrite bool_decide_eq_false_2 by done. by apply IH.
Qed.

(** X14.  The eligible set is exactly the orders the pool lists under a
    ticked platform of the pool whose order number is not in the round
    accumulator. *)
Theorem eligible_orders_spec (s : session_state) (order platform : string) :
  (order, platform) ∈ eligible_orders s
  ↔ platform ∈ dict_keys (order_pool s)
    ∧ (platform ∉ unchecked s)
    ∧ listed (order_pool s) platform order
    ∧ (order ∉ accumulator_orders s).
Proof.
  unfold eligible_orders, selected_platforms, listed.
  rewrite list_elem_of_bind. split.
  - intros (pl & Hin & Hsel).
    apply list_elem_of_bind in Hin as (o & Hin & Ho).
    apply list_elem_of_singleton in Hin as [= -> ->].
    apply list_elem_of_filter in Hsel as [? ?].
    apply list_elem_of_filter in Ho as [Hw ?].
    apply is_already_winner_false in Hw. done.
  - intros (Hk & Hu & Hl & Hw). exists platform. split.
    + apply list_elem_of_bind. exists order. split; [constructor|].
      apply list_elem_of_filter. split; [|done].
      by apply is_already_winner_false.
    + by apply list_elem_of_filter.
Qed.

Lemma length_bind_pairs (f : string → list string) (platforms : list string) :
  length (platform ← platforms; order ← f platform; [(order, platform)])
  = sum_list (length <$> (f <$> platforms)).
Proof.
  induction platforms as [|pl platforms IH]; [done|].
  rewrite bind_cons, length_app, IH, !fmap_cons. simpl. f_equal.
  induction (f pl) as [|o l IHl]; [done|].
  rewrite bind_cons. simpl. by rewrite IHl.
Qed.

Lemma sum_list_le (f g : string → nat) (l : list string) :
  (∀ x, f x ≤ g x) → sum_list (f <$> l) ≤ sum_list (g <$> l).
Proof.
  intros Hle. induction l as [|x l IH]; [done|].
  rewrite !fmap_cons. simpl. specialize (Hle x). lia.
Qed.

(** X15.  The eligible set is never larger than the number of orders of
    the selected platforms, and the two are equal while the round
    accumulator is empty. *)
Theorem eligible_count_bound (s : session_state) :
  length (eligible_orders s) ≤ total_orders_in_selected_platforms s
  ∧ (final_winners s = [] →
     length (eligible_orders s) = total_orders_in_selected_platforms s).
Proof.
  unfold eligible_orders, total_orders_in_selected_platforms.
  rewrite (length_bind_pairs
    (λ platform, filter (λ order, is_already_winner s order = false)
                   (orders_of s platform))).
  rewrite <- !list_fmap_compose. split.
  - apply sum_list_le. intros platform. simpl. apply length_filter.
  - intros Hempty. f_equal. apply list_fmap_ext. intros _ platform _. simpl.
    f_equal. unfold is_already_winner. rewrite Hempty. simpl.
    induction (orders_of s platform) as [|o l IH]; [done|].
    rewrite filter_cons, decide_True by done. by rewrite IH.
Qed.

Lemma eligible_count_bound_witness :
  length (eligible_orders (ss three_orders)) = 3
  ∧ total_orders_in_selected_platforms (ss three_orders) = 3.
Proof.
  destruct (eligible_count_bound (ss three_orders)) as [_ Heq].
  split; [|reflexivity]. rewrite Heq; reflexivity.
Defined.

(** ** The drawing page: what the events change *)

Lemma rolling_phase_beside_round frames (s : session_state) :
  beside_round (rolling_phase frames s) = beside_round s
  ∧ winners (rolling_phase frames s) = winners s.
Proof. by destruct (rolling_phase_candidate frames s) as (c & -> & _). Qed.

Lemma confirm_handler_beside_round save (w : world) :
  beside_round (ss (confirm_handler save w).1) = beside_round (ss w).
Proof.
  unfold confirm_handler.
  destruct save.
  - destruct (commit_round (winners (ss w)) (final_winners (ss w)))
      as [ledger [|]].
    + destruct (save_winners ledger (disk w)) as [ok fs]. simpl.
      by destruct (final_winners (ss w)).
    + simpl. by destruct (final_winners (ss w)).
  - simpl. by destruct (final_winners (ss w)).
Qed.


Lemma handle_beside_round (e : event) (w : world) :
  beside_round (ss (handle e w)) = beside_round (ss w).
Proof.
  destruct e as [|select_time| |n|platform|save]; cbn [handle].
  - destruct (start_disabled (ss w)); [done|]. cbn [ss].
    by destruct (start_handler_cases (ss w)) as [->|[-> _]].
  - destruct (select_disabled (ss w)); [done|]. cbn [ss].
    unfold select_handler. simpl.
    by destruct (is_empty (current_rolling_order (ss w)).1).
  - by destruct (reset_disabled (ss w)).
  - by destruct ((1 <=? n) && (n <=? 100)).
  - done.
  - destruct (confirm_shown (ss w)); [|done].
    apply confirm_handler_beside_round.
Qed.


Lemma step_beside_round (w : world) (a : event * (nat * list nat)) :
  beside_round (ss (step w a)) = beside_round (ss w).
Proof.
  destruct a as [e frames]. unfold step. cbn [fst snd].
  pose proof (handle_beside_round e w) as Hh.
  pose proof (λ s, proj1 (rolling_phase_beside_round frames s)) as Hr.
  destruct e; cbn [ss]; by rewrite ?Hr.
Qed.


Lemma run_beside_round trace : ∀ w : world,
  beside_round (ss (run w trace)) = beside_round (ss w).
Proof.
  induction trace as [|a trace IH]; intros w; [done|].
  simpl. by rewrite IH, step_beside_round.
Qed.



(** ** The drawing page: what a round holds *)

Lemma eligible_listed (s : session_state) order platform :
  (order, platform) ∈ eligible_orders s → listed (order_pool s) platform order.
Proof.
  unfold eligible_orders, listed.
  intros (pl & Hin & _)%list_elem_of_bind.
  apply list_elem_of_bind in Hin as (o & Hin & Ho).
  apply list_elem_of_singleton in Hin as [= -> ->].
  by apply list_elem_of_filter in Ho as [_ ?].
Qed.

Lemma rolling_phase_from_pool frames (s : session_state) :
  candidate_from_pool s → round_from_pool s →
  candidate_from_pool (rolling_phase frames s)
  ∧ round_from_pool (rolling_phase frames s).
Proof.
  intros Hc Hr.
  destruct (rolling_phase_candidate frames s) as (c & -> & Hcand).
  split; [|done]. unfold candidate_from_pool. simpl.
  destruct (loop_entered s).
  - right. destruct c as [order platform]. by apply eligible_listed.
  - by subst c.
Qed.

Lemma handle_from_pool (e : event) (w : world) :
  candidate_from_pool (ss w) → round_from_pool (ss w) →
  candidate_from_pool (ss (handle e w)) ∧ round_from_pool (ss (handle e w)).
Proof.
  intros Hc Hr.
  destruct e as [|select_time| |n|platform|save]; cbn [handle].
  - destruct (start_disabled (ss w)); [done|]. cbn [ss].
    by destruct (start_handler_cases (ss w)) as [->|[-> _]].
  - destruct (select_disabled (ss w)); [done|]. cbn [ss].
    unfold select_handler. simpl.
    destruct (is_empty (current_rolling_order (ss w)).1) eqn:He; [done|].
    split; [done|]. unfold round_from_pool. simpl.
    apply Forall_app. split; [done|]. constructor; [|constructor]. simpl.
    assert ((current_rolling_order (ss w)).1 ≠ "") as Hne.
    { intros H. apply is_empty_true in H. congruence. }
    split; [done|]. by destruct Hc.
  - destruct (reset_disabled (ss w)); [done|]. split; [done|constructor].
  - by destruct ((1 <=? n) && (n <=? 100)).
  - done.
  - destruct (confirm_shown (ss w)); [|done].
    destruct (confirm_handler_round save w) as (Hf & _ & _).
    pose proof (confirm_handler_beside_round save w) as Hb.
    assert (order_pool (ss (confirm_handler save w).1) = order_pool (ss w))
      as Hpool by (by injection Hb).
    split.
    + unfold candidate_from_pool. rewrite Hpool.
      unfold confirm_handler.
      destruct save.
      * destruct (commit_round (winners (ss w)) (final_winners (ss w)))
          as [ledger [|]].
        -- destruct (save_winners ledger (disk w)) as [ok fs]. simpl.
           destruct (final_winners (ss w)); [done|by left].
        -- simpl. destruct (final_winners (ss w)); [done|by left].
      * simpl. destruct (final_winners (ss w)); [done|by left].
    + unfold round_from_pool. rewrite Hf. constructor.
Qed.

Lemma step_from_pool (w : world) (a : event * (nat * list nat)) :
  candidate_from_pool (ss w) → round_from_pool (ss w) →
  candidate_from_pool (ss (step w a)) ∧ round_from_pool (ss (step w a)).
Proof.
  intros Hc Hr. destruct a as [e frames]. unfold step. cbn [fst snd].
  destruct (handle_from_pool e w Hc Hr) as [Hc' Hr'].
  destruct e; cbn [ss]; try by apply rolling_phase_from_pool.
  done.
Qed.

Lemma run_from_pool trace : ∀ w : world,
  candidate_from_pool (ss w) → round_from_pool (ss w) →
  candidate_from_pool (ss (run w trace)) ∧ round_from_pool (ss (run w trace)).
Proof.
  induction trace as [|a trace IH]; intros w Hc Hr; [done|].
  simpl. destruct (step_from_pool w a Hc Hr). by apply IH.
Qed.

(** X17.  From the drawing page as opened and under every sequence of its
    events, every entry of the round accumulator has a non-empty order
    number that the order pool lists under the platform of the entry. *)
Theorem drawn_entries_from_pool (p : pool) (ledger : list winner)
    (fs : filesystem) (trace : list (event * (nat * list nat))) :
  Forall (λ e : entry, e.1.1 ≠ "" ∧ listed p e.1.2 e.1.1)
    (final_winners (ss (run (World (fresh_session p ledger) fs) trace))).
Proof.
  destruct (run_from_pool trace (World (fresh_session p ledger) fs))
    as [_ Hr]; [by left|constructor|].
  pose proof (run_beside_round trace (World (fresh_session p ledger) fs))
    as Hb.
  unfold round_from_pool in Hr.
  assert (order_pool (ss (run (World (fresh_session p ledger) fs) trace)) = p)
    as Hpool by (by injection Hb).
  by rewrite Hpool in Hr.
Qed.



(** ** Round confirmation *)

(** X19.  A confirmation of a complete round, with the save box ticked or
    not: the round accumulator and the current candidate are cleared, the
    round is offered for export, and the winner ledger of the session is the
    committed ledger if the box is ticked and the ledger before if not. *)
Theorem confirm_clears_round (w : world) (save_results : bool)
    (frames : nat * list nat) :
  confirm_shown (ss w) = true →
  1 ≤ winner_count (ss w) →
  final_winners (ss (step w (ConfirmCompletion save_results, frames))) = []
  ∧ current_rolling_order (ss (step w (ConfirmCompletion save_results, frames)))
    = ("", "")
  ∧ winners (ss (step w (ConfirmCompletion save_results, frames)))
    = (if save_results
       then (commit_round (winners (ss w)) (final_winners (ss w))).1
       else winners (ss w))
  ∧ ExportOffered (final_winners (ss w))
    ∈ (confirm_handler save_results w).2.
Proof.
  intros Hshown Hcount. unfold step. cbn [fst handle]. rewrite Hshown.
  assert (final_winners (ss w) ≠ []) as Hne.
  { unfold confirm_shown in Hshown.
    apply andb_true_iff in Hshown as [_ Hfull%bool_decide_eq_true].
    intros H. rewrite H in Hfull. simpl in Hfull. lia. }
  unfold confirm_handler.
  destruct save_results.
  - destruct (commit_round (winners (ss w)) (final_winners (ss w)))
      as [ledger [|]].
    + destruct (save_winners ledger (disk w)) as [[|] fs]; simpl;
        (destruct (final_winners (ss w)) eqn:Hf; [done|]); simpl;
        (split_and!; [done..|]); repeat constructor.
    + simpl. destruct (final_winners (ss w)) eqn:Hf; [done|]. simpl.
      split_and!; [done..|]. repeat constructor.
  - simpl. destruct (final_winners (ss w)) eqn:Hf; [done|]. simpl.
    split_and!; [done..|]. repeat constructor.
Qed.

Lemma confirm_clears_round_witness :
  final_winners (ss (step round_of_two_world (ConfirmCompletion false, (0, []))))
  = []
  ∧ winners (ss (step round_of_two_world (ConfirmCompletion false, (0, []))))
    = [].
Proof.
  destruct (confirm_clears_round round_of_two_world false (0, []))
    as (Hf & _ & Hw & _).
  - reflexivity.
  - vm_compute. lia.
  - split; [exact Hf|exact Hw].
Defined.

(** X20.  A confirmation with the save box ticked that adds a record while
    the ledger file can be written: the save is reported as done, and the
    next load of the ledger returns the winner ledger of the session. *)
Theorem saved_ledger_is_loaded (w : world) :
  (commit_round (winners (ss w)) (final_winners (ss w))).2 = true →
  WINNERS_FILE ∉ readonly (disk w) →
  load_winners (disk (confirm_handler true w).1)
  = VList (winners (ss (confirm_handler true w).1))
  ∧ ResultsSaved ∈ (confirm_handler true w).2.
Proof.
  intros Hadded Hw. unfold confirm_handler.
  destruct (commit_round (winners (ss w)) (final_winners (ss w)))
    as [ledger added]. simpl in Hadded. subst added.
  destruct (write_json_writable WINNERS_FILE (VList ledger) (disk w) Hw)
    as [fs Hfs].
  unfold save_winners. rewrite Hfs.
  pose proof (write_json_lookup _ _ _ _ Hfs WINNERS_FILE) as Hl.
  rewrite decide_True in Hl by done. apply load_winners_stored in Hl.
  simpl. destruct (final_winners (ss w)); simpl;
    (split; [done|]); rewrite elem_of_cons; by left.
Qed.

Lemma saved_ledger_is_loaded_witness :
  load_winners (disk (confirm_handler true round_of_two_world).1)
  = VList [Winner "3" "A" "t1"; Winner "2" "A" "t2"].
Proof.
  destruct (saved_ledger_is_loaded round_of_two_world) as [Hl _].
  - reflexivity.
  - vm_compute. set_solver.
  - rewrite Hl. reflexivity.
Defined.

(** ** The winner ledger *)

Lemma records_of_zero order (ledger : list winner) :
  records_of order ledger = 0 ↔ order ∉ order_no <$> ledger.
Proof.
  unfold records_of. induction ledger as [|w ledger IH].
  - simpl. split; [intros _; apply not_elem_of_nil|done].
  - rewrite filter_cons, fmap_cons, not_elem_of_cons.
    destruct (decide (order_no w = order)) as [Heq|Hne]; simpl.
    + split; [done|]. intros [? _]. congruence.
    + rewrite IH. split; [|tauto]. intros ?. split; [congruence|done].
Qed.

Lemma commit_fold_keeps round : ∀ (ledger : list winner) (b : bool),
  ledger `prefix_of` (foldl commit_entry (ledger, b) round).1
  ∧ (NoDup (order_no <$> ledger) →
     NoDup (order_no <$> (foldl commit_entry (ledger, b) round).1)).
Proof.
  induction round as [|[[o p] t] round IH]; intros ledger b; [done|].
  cbn [foldl]. rewrite commit_entry_cases.
  destruct (decide (records_of o ledger = 0)) as [Hz|Hnz]; [|apply IH].
  destruct (IH (ledger ++ [Winner o p t]) true) as [Hpre Hnd]. split.
  - etrans; [|exact Hpre]. by apply prefix_app_r.
  - intros Hledger. apply Hnd. rewrite fmap_app. simpl.
    apply NoDup_app. split_and!; [done| |apply NoDup_singleton].
    intros x Hx ->%list_elem_of_singleton. by apply records_of_zero in Hz.
Qed.

(** X21.  The commit of a round only appends to the ledger: the ledger
    before is a prefix of the ledger after; every order number of the round
    has a record afterwards; and a ledger without repeated order numbers
    stays without. *)
Theorem commit_keeps_ledger (ledger : list winner) (round : list entry) :
  ledger `prefix_of` (commit_round ledger round).1
  ∧ (∀ e, e ∈ round →
       entry_order e ∈ order_no <$> (commit_round ledger round).1)
  ∧ (NoDup (order_no <$> ledger) →
     NoDup (order_no <$> (commit_round ledger round).1)).
Proof.
  unfold commit_round.
  destruct (commit_fold_keeps round ledger false) as [Hpre Hnd].
  split_and!; [done| |done].
  intros e He.
  destruct (decide (entry_order e
                    ∈ order_no <$> (foldl commit_entry (ledger, false) round).1))
    as [|Hnot]; [done|].
  apply records_of_zero in Hnot. rewrite commit_records in Hnot.
  destruct (decide (records_of (entry_order e) ledger = 0)); [|done].
  rewrite decide_True in Hnot; [done|]. by apply list_elem_of_fmap_2.
Qed.

Lemma commit_keeps_ledger_witness :
  NoDup (order_no <$> (commit_round saved_ledger
                         [("D2023001", "天猫", "t1"); ("T1", "天猫", "t2");
                          ("T1", "天猫", "t3")]).1).
Proof.
  apply (commit_keeps_ledger saved_ledger).
  apply NoDup_singleton.
Defined.

Lemma find_winner_app order (ledger : list winner) w :
  find_winner order (ledger ++ [w])
  = match find_winner order ledger with
    | Some found => Some found
    | None => if bool_decide (order_no w = order) then Some w else None
    end.
Proof.
  induction ledger as [|w0 ledger IH]; simpl; [done|].
  by destruct (bool_decide (order_no w0 = order)).
Qed.

Lemma find_winner_None order (ledger : list winner) :
  find_winner order ledger = None ↔ records_of order ledger = 0.
Proof.
  unfold records_of. induction ledger as [|w ledger IH]; simpl; [done|].
  rewrite filter_cons.
  destruct (decide (order_no w = order)) as [Heq|Hne].
  - rewrite bool_decide_eq_true_2 by done. simpl. done.
  - by rewrite bool_decide_eq_false_2 by done.
Qed.

Lemma find_winner_commit order round : ∀ (ledger : list winner) (b : bool),
  find_winner order (foldl commit_entry (ledger, b) round).1
  = match find_winner order ledger with
    | Some found => Some found
    | None => record_of <$> find_entry order round
    end.
Proof.
  induction round as [|[[o p] t] round IH]; intros ledger b.
  - simpl. by destruct (find_winner order ledger).
  - cbn [foldl find_entry]. rewrite commit_entry_cases.
    change (entry_order (o, p, t)) with o.
    destruct (decide (records_of o ledger = 0)) as [Hz|Hnz]; rewrite IH.
    + rewrite find_winner_app. simpl.
      destruct (find_winner order ledger); [done|].
      by destruct (bool_decide (o = order)).
    + destruct (find_winner order ledger) eqn:Hf; [done|].
      apply find_winner_None in Hf.
      rewrite bool_decide_eq_false_2; [done|]. congruence.
Qed.

(** X22.  The result query after a commit: for an order number already in
    the ledger the query returns the record it returned before, with its
    old platform and time, even if the order was drawn again; for another
    order number it returns the record of the first entry of the round with
    that number, or nothing if the round has none; and the record returned
    always carries the order number asked for. *)
Theorem winner_query_after_commit (order : string) (ledger : list winner)
    (round : list entry) :
  find_winner order (commit_round ledger round).1
  = match find_winner order ledger with
    | Some found => Some found
    | None => record_of <$> find_entry order round
    end
  ∧ match find_winner order (commit_round ledger round).1 with
    | Some found =>
        order_no found = order ∧ found ∈ (commit_round ledger round).1
    | None => order ∉ order_no <$> (commit_round ledger round).1
    end.
Proof.
  split; [apply find_winner_commit|].
  generalize (commit_round ledger round).1. intros l.
  destruct (find_winner order l) as [found|] eqn:Hf.
  - induction l as [|w l IH]; simpl in Hf; [done|].
    case_bool_decide as Hw.
    + injection Hf as <-. split; [done|constructor].
    + destruct (IH Hf) as [? ?]. split; [done|by constructor].
  - by apply records_of_zero, find_winner_None.
Qed.

(** ** Text import: lines and commas *)

Lemma drop_prefix_app (w l r : list ascii) :
  drop_prefix w l = Some r → l = w ++ r.
Proof.
  revert l. induction w as [|a w IH]; intros l; simpl.
  - by intros [= ->].
  - destruct l as [|b l]; [done|].
    destruct (decide (a = b)) as [->|]; [|done].
    intros H. by rewrite (IH l H).
Qed.

Lemma drop_space_bytes ws (l r : list ascii) :
  drop_space ws l = Some r → ∀ c, c ∈ r → c ∈ l.
Proof.
  induction ws as [|w ws IH]; simpl; [done|].
  destruct (drop_prefix w l) as [r'|] eqn:Hd; [|done].
  intros [= ->] c Hc. rewrite (drop_prefix_app _ _ _ Hd), elem_of_app. auto.
Qed.

Lemma lstrip_fuel_bytes ws fuel : ∀ (l : list ascii) c,
  c ∈ lstrip_fuel ws fuel l → c ∈ l.
Proof.
  induction fuel as [|fuel IH]; intros l c; simpl; [done|].
  destruct (drop_space ws l) as [r|] eqn:Hd; [|done].
  intros Hc. eapply drop_space_bytes; [done|]. by apply IH.
Qed.

(** Stripping brings in no byte. *)
Lemma strip_bytes (s : string) c :
  c ∈ list_ascii_of_string (strip s) → c ∈ list_ascii_of_string s.
Proof.
  unfold strip, rstrip, lstrip.
  rewrite list_ascii_of_string_of_list_ascii, elem_of_reverse.
  intros Hc%lstrip_fuel_bytes. rewrite elem_of_reverse in Hc.
  by apply lstrip_fuel_bytes in Hc.
Qed.

Lemma split_bytes_bytes sep (l : list ascii) :
  ∀ field c, field ∈ split_bytes sep l → c ∈ field → c ∈ l.
Proof.
  induction l as [|a l IH]; intros field c; simpl.
  - intros ->%list_elem_of_singleton. done.
  - destruct (decide (a = sep)) as [->|Hne].
    + intros [->|Hin]%elem_of_cons Hc; [by apply elem_of_nil in Hc|].
      constructor. by apply (IH field).
    + destruct (split_bytes sep l) as [|first rest] eqn:Hs.
      * intros ->%list_elem_of_singleton ->%list_elem_of_singleton.
        constructor.
      * intros [->|Hin]%elem_of_cons Hc.
        -- apply elem_of_cons in Hc as [->|Hc]; [constructor|].
           constructor. apply (IH first); [constructor|done].
        -- constructor. apply (IH field); [by constructor|done].
Qed.

Lemma parse_lines_without_comma lines : ∀ pairs,
  (∀ line, line ∈ lines → comma ∉ list_ascii_of_string line) →
  foldl parse_line pairs lines = pairs.
Proof.
  induction lines as [|line lines IH]; intros pairs Hall; [done|].
  simpl. rewrite line_without_comma_dropped.
  - apply IH. intros l Hl. apply Hall. by constructor.
  - intros Hc%strip_bytes. by apply (Hall line); [constructor|].
Qed.

(** X23.  A text without any comma imports nothing in either mode: the
    session state is as it was, [process_orders] is not reached, and the
    page shows that the input is empty or that no valid data was found;
    no error is counted for any of its lines. *)
Theorem text_without_comma_imports_nothing (mode : import_mode)
    (import_text : string) (s : session_state) :
  comma ∉ list_ascii_of_string import_text →
  (import_text_button mode import_text s).1 = s
  ∧ ((import_text_button mode import_text s).2 = [EmptyInput]
     ∨ (import_text_button mode import_text s).2 = [NoValidData]).
Proof.
  intros Hcomma. unfold import_text_button.
  destruct (is_empty (strip import_text)); [by split; [|left]|].
  unfold parse_lines. rewrite parse_lines_without_comma; [by split; [|right]|].
  intros line Hline Hc. apply Hcomma, strip_bytes.
  unfold str_split in Hline.
  apply list_elem_of_fmap in Hline as (field & -> & Hfield).
  rewrite list_ascii_of_string_of_list_ascii in Hc.
  by apply (split_bytes_bytes newline _ field).
Qed.

Lemma text_without_comma_imports_nothing_witness :
  (import_text_button Replace ("抖音 D2023001" +:+ chr 10 +:+ "天猫")
     (fresh_session saved_pool [])).1
  = fresh_session saved_pool [].
Proof.
  apply (text_without_comma_imports_nothing Replace
           ("抖音 D2023001" +:+ chr 10 +:+ "天猫")
           (fresh_session saved_pool [])).
  apply (bool_decide_unpack _). by vm_compute.
Defined.

Lemma list_ascii_of_string_app (a b : string) :
  list_ascii_of_string (a +:+ b)
  = list_ascii_of_string a ++ list_ascii_of_string b.
Proof. induction a as [|c a IH]; simpl; [done|]. by rewrite IH. Qed.

Lemma split1_bytes_first sep (before after : list ascii) :
  sep ∉ before → split1_bytes sep (before ++ sep :: after) = [before; after].
Proof.
  induction before as [|c before IH]; intros Hsep; simpl.
  - by rewrite decide_True.
  - rewrite decide_False by (intros ->; apply Hsep; constructor).
    rewrite IH; [done|]. intros ?. apply Hsep. by constructor.
Qed.

(** X24.  A line is cut at its first comma only: when the stripped line is
    a platform field without a comma, a comma, and a rest, the line adds
    the pair of the stripped platform field and the stripped rest, commas
    of the rest included. *)
Theorem parse_line_first_comma (pairs : list (string * string))
    (line platform order : string) :
  strip line = platform +:+ "," +:+ order →
  comma ∉ list_ascii_of_string platform →
  parse_line pairs line = pairs ++ [(strip platform, strip order)].
Proof.
  intros Hline Hsep. unfold parse_line. rewrite Hline.
  assert (is_empty (platform +:+ "," +:+ order) = false) as ->.
  { apply not_true_is_false. rewrite is_empty_true. by destruct platform. }
  unfold str_split1. rewrite list_ascii_of_string_app. simpl.
  rewrite split1_bytes_first by done. simpl.
  by rewrite !string_of_list_ascii_of_string.
Qed.

Lemma parse_line_first_comma_witness :
  parse_line [] "  抖音 , D,2023 " = [("抖音", "D,2023")].
Proof.
  apply (parse_line_first_comma [] "  抖音 , D,2023 " "抖音 " " D,2023").
  - by vm_compute.
  - apply (bool_decide_unpack _). by vm_compute.
Defined.
